(** * DL-Art-School: multiscale tile tree, patch pyramid and vocoder assembly

    A shallow embedding of

    - [codes/data/multiscale_dataset.py]: the tile-tree builder
      [build_multiscale_patch_index_map], the square crop
      [get_square_image], the recursive patch extraction and the path
      selection of [MultiScaleDataset.__getitem__];
    - [codes/models/gpt_voice/unet_diffusion_vocoder_with_ref_trunc_top.py]:
      the block planning of [DiffusionVocoderWithRefTruncatedTop.__init__]
      and the entry checks and slice bounds of its [forward].

    Python integers are [Z]; Python floats that only carry small exact
    values here (crop offsets, channel multipliers) are rationals [Q];
    objects that are shared by reference live in an explicit store. *)

From Stdlib Require Import ZArith QArith Qminmax Lia List.
From stdpp Require Import base tactics option list strings gmap.
From Equations Require Import Equations.
Import ListNotations.

Local Open Scope Z_scope.

(** ** Python outcomes *)

(** What a Python call can do in the fragment modelled here: return a
    value or raise one of the exceptions below.  [RecursionError] is what
    the interpreter raises when the call stack is exhausted; a model that
    runs out of fuel reports it. *)
Inductive exn :=
| RecursionError
| AssertionError
| IndexError
| ZeroDivisionError
| AttributeError
| NameError.

Inductive outcome (A : Type) :=
| Returned (a : A)
| Raised (e : exn).
Arguments Returned {A} a.
Arguments Raised {A} e.

(** ** The tile tree *)

Module TileTree.

(** Nodes are objects; [parent] and [children] hold references.  A
    reference is the position of the object in the store. *)
Abbreviation addr := nat.

Record MultiscaleTreeNode := mkNode {
  index : Z;
  parent : option addr;
  children : list addr
}.

(** The objects allocated so far and the [leaves] list that the builder
    passes by reference through the recursion. *)
Record world := mkWorld {
  nodes : list MultiscaleTreeNode;
  leaves : list addr
}.

Definition run (A : Type) := world -> outcome (A * world).

Definition ret {A} (a : A) : run A := fun w => Returned (a, w).

Definition bind {A B} (c : run A) (k : A -> run B) : run B :=
  fun w => match c w with
           | Returned (a, w') => k a w'
           | Raised e => Raised e
           end.

Definition raise {A} (e : exn) : run A := fun _ => Raised e.

Notation "'let!' x ':=' c 'in' k" := (bind c (fun x => k))
  (at level 10, x name, c at level 100, k at level 200).

(** [MultiscaleTreeNode(index, parent)] *)
Definition new_node (index : Z) (parent : option addr) : run addr :=
  fun w => Returned (length (nodes w),
                     mkWorld (nodes w ++ [mkNode index parent []]) (leaves w)).

(** [self.children.append(child); return child] *)
Definition add_child (self child : addr) : run addr :=
  fun w => Returned (child,
                     mkWorld (alter (fun n => mkNode (index n) (parent n)
                                                    (children n ++ [child]))
                                    self (nodes w))
                             (leaves w)).

(** [leaves.extend(subnodes)] *)
Definition leaves_extend (subnodes : list addr) : run unit :=
  fun w => Returned (tt, mkWorld (nodes w) (leaves w ++ subnodes)).

(** [[f(i) for i in l]] *)
Fixpoint comprehension {A B} (f : A -> run B) (l : list A) : run (list B) :=
  match l with
  | [] => ret []
  | x :: l' =>
      let! y := f x in
      let! ys := comprehension f l' in
      ret (y :: ys)
  end.

(** [for n in l: ind = body(ind, n)] *)
Fixpoint for_each {A S} (body : S -> A -> run S) (s : S) (l : list A) : run S :=
  match l with
  | [] => ret s
  | x :: l' =>
      let! s' := body s x in
      for_each body s' l'
  end.

(** [range(4)] *)
Definition range4 : list Z := [0; 1; 2; 3].

(** [_build_multiscale_patch_index_map(depth, ind, node, leaves)]; every
    Python call frame costs one unit of [fuel]. *)
Fixpoint _build_multiscale_patch_index_map
    (fuel : nat) (depth ind : Z) (node : addr) : run Z :=
  match fuel with
  | O => raise RecursionError
  | S fuel' =>
      let! subnodes := comprehension
                         (fun i => let! c := new_node (ind + i) (Some node) in
                                   add_child node c)
                         range4 in
      let ind := ind + 4 in
      if depth =? 1 then
        let! _ := leaves_extend subnodes in
        ret ind
      else
        for_each (fun ind n =>
                    _build_multiscale_patch_index_map fuel' (depth - 1) ind n)
                 ind subnodes
  end.

Definition empty_world : world := mkWorld [] [].

(** [build_multiscale_patch_index_map(depth)]: [None] is Python's [None],
    returned by the bare [return] of the guard. *)
Definition build_multiscale_patch_index_map
    (fuel : nat) (depth : Z) : outcome (option (list addr) * world) :=
  if depth <? 0 then Returned (None, empty_world)
  else
    (let! root := new_node 0 None in
     let! _ := _build_multiscale_patch_index_map fuel (depth - 1) 1 root in
     fun w => Returned (Some (leaves w), w)) empty_world.

(** Upward traversal, as the [while node is not None: node = node.parent]
    loop of the script does it. *)
Definition parent_of (h : list MultiscaleTreeNode) (a : addr) : option addr :=
  match h !! a with
  | Some n => parent n
  | None => None
  end.

Fixpoint climb (h : list MultiscaleTreeNode) (steps : nat) (a : addr) : option addr :=
  match steps with
  | O => Some a
  | S k => match parent_of h a with
           | Some p => climb h k p
           | None => None
           end
  end.

(** The root: the node with index 0 and no parent. *)
Definition is_root (h : list MultiscaleTreeNode) (a : addr) : Prop :=
  exists n, h !! a = Some n /\ index n = 0 /\ parent n = None.

(** What upward traversal reads of a store: the index and the parent of
    every node. *)
Definition links (h : list MultiscaleTreeNode) : list (Z * option addr) :=
  map (fun n => (index n, parent n)) h.

(** [h'] has every node of [h], with the same index and parent, and
    possibly more. *)
Definition ext (h h' : list MultiscaleTreeNode) : Prop :=
  exists t, links h' = links h ++ t.

(** What a run of the builder below [node] does to the world: old nodes
    keep their links, and [count] new leaves are appended, each [steps]
    parent links below [node]. *)
Definition grows (steps : nat) (node : addr) (count : nat) (w w' : world) : Prop :=
  ext (nodes w) (nodes w') /\
  exists new, leaves w' = leaves w ++ new
              /\ length new = count
              /\ forall l, l ∈ new -> climb (nodes w') steps l = Some node.

(** The index counter of the builder: the nodes created between [w] and
    [w'] carry the indices [ind], [ind + 1], ... in the order of their
    creation, and [ind'] is the next free index. *)
Definition numbered (ind : Z) (w w' : world) (ind' : Z) : Prop :=
  exists t, links (nodes w') = links (nodes w) ++ t
            /\ ind' = ind + Z.of_nat (length t)
            /\ forall j e, t !! j = Some e -> fst e = ind + Z.of_nat j.

(** Parent links and children lists tell the same tree: the parent of
    [c] is [p] exactly when [p] is a node that lists [c] among its
    children. *)
Definition family_ok (h : list MultiscaleTreeNode) : Prop :=
  forall c p, parent_of h c = Some p <-> exists n, h !! p = Some n /\ c ∈ children n.

(** One turn of the comprehension of the builder on the store: the new
    node is appended and registered with its parent. *)
Definition with_child (h : list MultiscaleTreeNode) (i : Z) (node : addr)
    : list MultiscaleTreeNode :=
  alter (fun n => mkNode (index n) (parent n) (children n ++ [length h]))
        node (h ++ [mkNode i (Some node) []]).

End TileTree.


(** ** Python helpers shared by the dataset and the network *)

(** [int(x)] on a float: truncation toward zero. *)
Definition py_int (q : Q) : Z := Z.quot (Qnum q) (Zpos (Qden q)).

(** One bound of a slice [a[start:stop]] over a dimension of length [len]:
    a negative bound counts from the end, and every bound is clipped to
    the dimension. *)
Definition slice_index (len : Z) (i : option Z) (default : Z) : Z :=
  match i with
  | None => default
  | Some i => if i <? 0 then Z.max (i + len) 0 else Z.min i len
  end.

Definition slice_bounds (len : Z) (start stop : option Z) : Z * Z :=
  (slice_index len start 0, slice_index len stop len).

(** [l[i]] on a list. *)
Definition py_list_get {A} (l : list A) (i : Z) : outcome A :=
  let n := Z.of_nat (length l) in
  let j := if i <? 0 then i + n else i in
  if (j <? 0) || (n <=? j) then Raised IndexError
  else match l !! Z.to_nat j with
       | Some x => Returned x
       | None => Raised IndexError
       end.

(** [a % b] on integers. *)
Definition py_mod (a b : Z) : outcome Z :=
  if b =? 0 then Raised ZeroDivisionError else Returned (a mod b).

Definition obind {A B} (c : outcome A) (k : A -> outcome B) : outcome B :=
  match c with
  | Returned a => k a
  | Raised e => Raised e
  end.

Notation "'let?' x ':=' c 'in' k" := (obind c (fun x => k))
  (at level 10, x name, c at level 100, k at level 200).

(** ** The multiscale dataset *)

Module MultiScaleDataset.

Section Dataset.
(** A pixel holds the channel values of one position. *)
Context {pixel path tensor : Type}.

(** An HWC array: [image.shape] is [(height, width, _)]. *)
Record image := mkImage {
  height : Z;
  width : Z;
  at_ : Z -> Z -> pixel
}.

(** [image[start:stop, :, :]] *)
Definition slice_rows (img : image) (start stop : option Z) : image :=
  let '(a, b) := slice_bounds (height img) start stop in
  mkImage (Z.max (b - a) 0) (width img) (fun i j => at_ img (a + i) j).

(** [image[:, start:stop, :]] *)
Definition slice_cols (img : image) (start stop : option Z) : image :=
  let '(a, b) := slice_bounds (width img) start stop in
  mkImage (height img) (Z.max (b - a) 0) (fun i j => at_ img i (a + j)).

(** [self.opt] as read by [__init__], with the paths found under
    [dataroot]. *)
Record MultiScaleDataset := mkDataset {
  tile_size : Z;
  num_scales : Z;
  scale : Z;
  paths_hq : list path
}.

Definition hq_size_cap (self : MultiScaleDataset) : Z :=
  tile_size self * 2 ^ num_scales self.

(** Library and [data.util] calls: their pixels are not modelled. *)
Variable cv2_resize : image -> Z -> Z -> image.
Variable read_img : path -> image.
Variable channel_convert : image -> image.
Variable augment : image -> image.
Variable to_tensor : image -> tensor.
Variable interpolate : Z -> tensor -> tensor.

(** [max(min(np.random.normal(scale=.3), 1.0), -1.0)], [draw] being the
    sample of the normal distribution. *)
Definition clamp_offset (draw : Q) : Q := Qmax (Qmin draw 1) (-1).

Definition get_square_image (img : image) (draw : Q) : image :=
  let h := height img in
  let w := width img in
  if h =? w then img
  else
    let offset := clamp_offset draw in
    if h >? w then
      let diff := h - w in
      let center := diff / 2 in
      let top := py_int (inject_Z center + offset * inject_Z (center - 2)) in
      slice_rows img (Some top) (Some (top + w))
    else
      let diff := w - h in
      let center := diff / 2 in
      let left := py_int (inject_Z center + offset * inject_Z (center - 2)) in
      slice_cols img (Some left) (Some (left + h)).

(** The four sub-patches, in the order of the source. *)
Definition quadrants (input_img : image) (patch_size : Z) : list image :=
  [ slice_cols (slice_rows input_img None (Some patch_size)) None (Some patch_size);
    slice_cols (slice_rows input_img None (Some patch_size)) (Some patch_size) None;
    slice_cols (slice_rows input_img (Some patch_size) None) None (Some patch_size);
    slice_cols (slice_rows input_img (Some patch_size) None) (Some patch_size) None ].

(** [recursively_extract_patches(input_img, result_list, depth)]; the
    list that the source extends in place is passed and returned. *)
Equations? recursively_extract_patches
    (self : MultiScaleDataset) (input_img : image) (result_list : list image)
    (depth : Z) : list image
    by wf (Z.to_nat (num_scales self - depth)) lt :=
  recursively_extract_patches self input_img result_list depth
    with Z_ge_lt_dec depth (num_scales self) => {
    | left _ => result_list
    | right _ =>
        let patch_size := hq_size_cap self / 2 ^ depth in
        let patches := quadrants input_img patch_size in
        let result_list :=
          result_list ++
            map (fun p => cv2_resize p (tile_size self) (tile_size self)) patches in
        fold_left
          (fun result_list p =>
             recursively_extract_patches self p result_list (depth + 1))
          patches result_list }.
Proof. lia. Qed.

(** A tile cut at recursion depth [depth] or deeper: the resize of a
    square region whose side is the capped size halved once per level. *)
Definition region_tile (self : MultiScaleDataset) (depth : Z) (t : image) : Prop :=
  exists q d, t = cv2_resize q (tile_size self) (tile_size self)
              /\ depth <= d < num_scales self
              /\ height q = tile_size self * 2 ^ (num_scales self - d)
              /\ width q = tile_size self * 2 ^ (num_scales self - d).

(** [self.paths_hq[index % len(self.paths_hq)]] *)
Definition select_path (self : MultiScaleDataset) (index : Z) : outcome path :=
  let? i := py_mod index (Z.of_nat (length (paths_hq self))) in
  py_list_get (paths_hq self) i.

(** The record returned by [__getitem__]. *)
Record sample := mkSample {
  LQ : list tensor;
  HQ : list tensor;
  GT_path : path
}.

(** Lines 62 to 64: the pyramid of [__getitem__]. *)
Definition patch_pyramid (self : MultiScaleDataset) (img_full : image) : list image :=
  let img_full := cv2_resize img_full (hq_size_cap self) (hq_size_cap self) in
  let patches_hq := [cv2_resize img_full (tile_size self) (tile_size self)] in
  recursively_extract_patches self img_full patches_hq 1.

(** [__getitem__(index)]; [draw] is the normal sample used by the crop. *)
Definition __getitem__ (self : MultiScaleDataset) (index : Z) (draw : Q)
    : outcome sample :=
  let? full_path := select_path self index in
  let img_full := read_img full_path in
  let img_full := channel_convert img_full in
  let img_full := augment img_full in
  let img_full := get_square_image img_full draw in
  let patches_hq := patch_pyramid self img_full in
  let patches_hq := map to_tensor patches_hq in
  let patches_lq := map (interpolate (scale self)) patches_hq in
  Returned (mkSample patches_lq patches_hq full_path).

Definition __len__ (self : MultiScaleDataset) : Z :=
  Z.of_nat (length (paths_hq self)).

End Dataset.

Arguments image : clear implicits.
Arguments MultiScaleDataset : clear implicits.
Arguments sample : clear implicits.

(** A small concrete dataset for the examples: one 8x8 source image whose
    pixel is its row-major position, tiles of side 2, and a stand-in for
    resizing that keeps the pixel function. *)
Module Fixture.

Definition source : image Z := mkImage 8 8 (fun i j => i * 8 + j).

Definition resize (img : image Z) (h w : Z) : image Z := mkImage h w (at_ img).

Definition dataset (num_scales : Z) : MultiScaleDataset nat :=
  mkDataset 2 num_scales 2 [0%nat].

Definition getitem (num_scales index : Z) (draw : Q) : outcome (sample nat (image Z)) :=
  __getitem__ resize (fun _ => source) id id id (fun _ t => t)
              (dataset num_scales) index draw.

End Fixture.

(** [1 + 4 + ... + 4^(levels-1)] *)
Fixpoint geometric_sum (levels : nat) : Z :=
  match levels with
  | O => 0
  | S n => geometric_sum n + 4 ^ Z.of_nat n
  end.

End MultiScaleDataset.

(** ** The vocoder network *)

Module Vocoder.

(** Layers are described by the arguments that fix their shapes; their
    kernels are not modelled. *)
Inductive resample := Plain | Down | Up.

Inductive layer :=
| linear (in_features out_features : Z)
| SiLU
| normalization (channels : Z)
| conv_nd (in_ch out_ch stride : Z)
| zero_conv_nd (in_ch out_ch : Z)
| ResBlock (channels out_channels : Z) (mode : resample)
| AttentionBlock (channels num_heads : Z)
| Downsample (channels out_channels : Z)
| Upsample (channels out_channels : Z).

Inductive module_ :=
| Sequential (layers : list layer)
| TimestepEmbedSequential (layers : list layer)
| DiscreteSpectrogramConditioningBlock (dvae_channels channels : Z)
| AudioMiniEncoder (spec_dim embedding_dim : Z).

Definition is_spectrogram_block (m : module_) : bool :=
  match m with
  | DiscreteSpectrogramConditioningBlock _ _ => true
  | _ => false
  end.

(** The constructor arguments that decide the structure.  Block counts
    are numbers of residual blocks, so they are naturals; channel
    multipliers may be fractional. *)
Record hparams := mkHparams {
  model_channels : Z;
  in_channels : Z;
  out_channels : Z;
  discrete_codes : Z;
  channel_mult : list Q;
  num_res_blocks : list nat;
  spectrogram_conditioning_resolutions : list Z;
  attention_resolutions : list Z;
  num_heads : Z;
  num_heads_upsample : Z;
  resblock_updown : bool;
  conditioning_inputs_provided : bool;
  time_embed_dim_multiplier : Z;
  only_train_dvae_connection_layers : bool
}.

(** [x in resolutions] *)
Definition contains (x : Z) (resolutions : list Z) : bool :=
  existsb (Z.eqb x) resolutions.

(** [enumerate(l)] *)
Definition enumerate {A} (l : list A) : list (nat * A) :=
  combine (seq 0 (length l)) l.

(** [l.pop()]: the last entry and the list without it. *)
Fixpoint pop {A} (l : list A) : outcome (A * list A) :=
  match l with
  | [] => Raised IndexError
  | [x] => Returned (x, [])
  | x :: l' => let? r := pop l' in Returned (fst r, x :: snd r)
  end.

(** The local variables of [__init__] that the two construction loops
    update.  [spectrogram_blocks] holds references: the position in
    [input_blocks] at which the same object was appended. *)
Record builder := mkBuilder {
  input_blocks : list module_;
  spectrogram_blocks : list nat;
  input_block_chans : list Z;
  feature_size : Z;
  ch : Z;
  ds : Z;
  output_blocks : list module_
}.

Section Construction.
Variable hp : hparams.

Definition heads_upsample : Z :=
  if num_heads_upsample hp =? -1 then num_heads hp else num_heads_upsample hp.

Definition time_embed_dim : Z := model_channels hp * time_embed_dim_multiplier hp.

(** [int(mult * model_channels)] *)
Definition level_channels (mult : Q) : Z :=
  py_int (mult * inject_Z (model_channels hp)).

Definition attention (num_heads : Z) (b_ds b_ch : Z) : list layer :=
  if contains b_ds (attention_resolutions hp)
  then [AttentionBlock b_ch num_heads] else [].

Definition init_builder : builder :=
  mkBuilder
    [TimestepEmbedSequential
       [conv_nd (model_channels hp / 2) (model_channels hp) 1]]
    []
    [model_channels hp]
    (model_channels hp)
    (model_channels hp)
    1
    [].

(** The conditioning block inserted when [ds] is a conditioning
    resolution. *)
Definition spec_cond_step (b : builder) : builder :=
  if contains (ds b) (spectrogram_conditioning_resolutions hp) then
    mkBuilder
      (input_blocks b ++ [DiscreteSpectrogramConditioningBlock (discrete_codes hp) (ch b)])
      (spectrogram_blocks b ++ [length (input_blocks b)])
      (input_block_chans b)
      (feature_size b)
      (ch b * 2)
      (ds b)
      (output_blocks b)
  else b.

(** One turn of [for _ in range(num_blocks)] on the down path. *)
Definition res_step (mult : Q) (b : builder) : builder :=
  let out := level_channels mult in
  let layers := ResBlock (ch b) out Plain :: attention (num_heads hp) (ds b) out in
  mkBuilder
    (input_blocks b ++ [TimestepEmbedSequential layers])
    (spectrogram_blocks b)
    (input_block_chans b ++ [out])
    (feature_size b + out)
    out
    (ds b)
    (output_blocks b).

(** The downsampling stage of every level but the last. *)
Definition downsample_step (level : nat) (b : builder) : builder :=
  if negb (Z.of_nat level =? Z.of_nat (length (channel_mult hp)) - 1) then
    let out_ch := ch b in
    mkBuilder
      (input_blocks b ++
         [TimestepEmbedSequential
            [if resblock_updown hp then ResBlock (ch b) out_ch Down
             else Downsample (ch b) out_ch]])
      (spectrogram_blocks b)
      (input_block_chans b ++ [out_ch])
      (feature_size b + out_ch)
      out_ch
      (ds b * 2)
      (output_blocks b)
  else b.

(** The body of the down-path loop for one [(level, (mult, num_blocks))]. *)
Definition down_level (b : builder) (lv : nat * (Q * nat)) : builder :=
  let '(level, (mult, num_blocks)) := lv in
  let b := spec_cond_step b in
  let b := Nat.iter num_blocks (res_step mult) b in
  downsample_step level b.

Definition levels : list (nat * (Q * nat)) :=
  enumerate (combine (channel_mult hp) (num_res_blocks hp)).

Definition down_path : builder := fold_left down_level levels init_builder.

Definition middle_block_of (b : builder) : module_ :=
  TimestepEmbedSequential
    [ResBlock (ch b) (ch b) Plain;
     AttentionBlock (ch b) (num_heads hp);
     ResBlock (ch b) (ch b) Plain].

Definition after_middle (b : builder) : builder :=
  mkBuilder (input_blocks b) (spectrogram_blocks b) (input_block_chans b)
            (feature_size b + ch b) (ch b) (ds b) (output_blocks b).

(** One turn of [for i in range(num_blocks + 1)] on the up path. *)
Definition up_step (level : nat) (mult : Q) (num_blocks : nat)
    (b : builder) (i : nat) : outcome builder :=
  let? popped := pop (input_block_chans b) in
  let ich := fst popped in
  let out := level_channels mult in
  let layers := ResBlock (ch b + ich) out Plain :: attention heads_upsample (ds b) out in
  let last := negb (Nat.eqb level 0) && Nat.eqb i num_blocks in
  let layers :=
    if last then
      layers ++ [if resblock_updown hp then ResBlock out out Up else Upsample out out]
    else layers in
  Returned
    (mkBuilder
       (input_blocks b)
       (spectrogram_blocks b)
       (snd popped)
       (feature_size b + out)
       out
       (if last then ds b / 2 else ds b)
       (output_blocks b ++ [TimestepEmbedSequential layers])).

(** [for x in l: b = body(b, x)] where the body may raise. *)
Fixpoint for_loop {A S} (body : S -> A -> outcome S) (s : S) (l : list A) : outcome S :=
  match l with
  | [] => Returned s
  | x :: l' => let? s' := body s x in for_loop body s' l'
  end.

Definition up_level (b : builder) (lv : nat * (Q * nat)) : outcome builder :=
  let '(level, (mult, num_blocks)) := lv in
  for_loop (up_step level mult num_blocks) b (seq 0 (num_blocks + 1)).

Definition up_path (b : builder) : outcome builder :=
  for_loop up_level b (rev levels).

(** Both loops and the bottleneck between them. *)
Definition plan_blocks : outcome builder :=
  up_path (after_middle down_path).

(** [num_blocks] as the up-path loop leaves it: the value of its last
    turn, which is level 0; unbound if the loop never ran. *)
Definition leftover_num_blocks : outcome nat :=
  match levels with
  | [] => Raised NameError
  | (_, (_, num_blocks)) :: _ => Returned num_blocks
  end.

(** The modules registered on [self], in the order of assignment. *)
Record network := mkNetwork {
  time_embed : module_;
  contextual_embedder : option module_;
  cheater_input_block : module_;
  net_input_blocks : list module_;
  middle_block : module_;
  net_output_blocks : list module_;
  top_inp_raw : module_;
  top_inp_blocks : list module_;
  top_out_upsample : module_;
  top_out_blocks : list module_;
  top_out_final : module_;
  net_spectrogram_blocks : list nat;
  _feature_size : Z
}.

Definition top_res_block (channels : Z) : module_ :=
  TimestepEmbedSequential [ResBlock channels (model_channels hp) Plain].

(** Everything [__init__] builds before it looks at
    [only_train_dvae_connection_layers]. *)
Definition assemble : outcome network :=
  let down := down_path in
  let? up := up_path (after_middle down) in
  let? num_blocks := leftover_num_blocks in
  Returned
    (mkNetwork
       (Sequential [linear (model_channels hp) time_embed_dim; SiLU;
                    linear time_embed_dim time_embed_dim])
       (if conditioning_inputs_provided hp
        then Some (AudioMiniEncoder (in_channels hp) time_embed_dim) else None)
       (TimestepEmbedSequential [conv_nd (in_channels hp) (model_channels hp / 2) 2])
       (input_blocks up)
       (middle_block_of down)
       (output_blocks up)
       (TimestepEmbedSequential [conv_nd (in_channels hp) (model_channels hp) 1])
       (repeat (top_res_block (model_channels hp)) num_blocks)
       (TimestepEmbedSequential
          [if resblock_updown hp
           then ResBlock (model_channels hp) (model_channels hp) Up
           else Upsample (ch up) (model_channels hp)])
       (repeat (top_res_block (2 * model_channels hp)) num_blocks)
       (Sequential [normalization (model_channels hp); SiLU;
                    zero_conv_nd (model_channels hp) (out_channels hp)])
       (spectrogram_blocks up)
       (feature_size up)).

End Construction.

(** What one level pushes on [input_block_chans] on the way down and pops
    on the way up. *)
Definition pushes (hp : hparams) (lv : nat * (Q * nat)) : nat :=
  snd (snd lv) +
  (if negb (Z.of_nat (fst lv) =? Z.of_nat (length (channel_mult hp)) - 1) then 1 else 0).

Definition pops (lv : nat * (Q * nat)) : nat := snd (snd lv) + 1.

(** The positions of the conditioning blocks in a module list. *)
Definition spec_positions (ms : list module_) : list nat :=
  map fst (List.filter (fun im => is_spectrogram_block (snd im)) (enumerate ms)).

(** The references kept in [spectrogram_blocks] are the positions of the
    conditioning blocks of [input_blocks]. *)
Definition refs_ok (b : builder) : Prop :=
  spectrogram_blocks b = spec_positions (input_blocks b).


(** *** Parameters and their attributes *)

(** Where a module is registered on [self]. *)
Inductive mpath :=
| P_time_embed
| P_contextual_embedder
| P_cheater_input_block
| P_input_blocks (i : nat)
| P_middle_block
| P_output_blocks (i : nat)
| P_top_inp_raw
| P_top_inp_blocks (i : nat)
| P_top_out_upsample
| P_top_out_blocks (i : nat)
| P_top_out_final.

#[global] Instance mpath_eq_dec : EqDecision mpath.
Proof. solve_decision. Defined.

(** A parameter object: the module that owns it and its position among
    the parameters of that module. *)
Abbreviation param := (mpath * nat)%type.

(** The two attributes of a parameter object that [__init__] touches;
    [DO_NOT_TRAIN = None] means that the attribute is not set. *)
Record attrs := mkAttrs {
  requires_grad : bool;
  DO_NOT_TRAIN : option bool
}.

(** A fresh [nn.Parameter]. *)
Definition fresh_attrs : attrs := mkAttrs true None.

(** A parameter after the first loop of the guarded block, and after the
    second. *)
Definition frozen : attrs := mkAttrs false (Some true).
Definition trainable : attrs := mkAttrs true None.

Abbreviation store := (param -> attrs).

Definition update (s : store) (p : param) (a : attrs) : store :=
  fun q => if decide (q = p) then a else s q.

(** The constructed object: its modules, the attributes of its parameter
    objects and [self.conditioning_enabled]. *)
Record model := mkModel {
  net : network;
  attrs_of : store;
  conditioning_enabled : bool
}.

Section Parameters.
(** How many parameter tensors a module owns; the layers' own classes
    decide it. *)
Variable param_count : module_ -> nat.

(** [m.parameters()] for the module registered at [p]. *)
Definition module_parameters (p : mpath) (m : module_) : list param :=
  map (pair p) (seq 0 (param_count m)).

Definition list_parameters (field : nat -> mpath) (ms : list module_) : list param :=
  flat_map (fun im => module_parameters (field (fst im)) (snd im)) (enumerate ms).

(** [self.parameters()] *)
Definition parameters (n : network) : list param :=
  module_parameters P_time_embed (time_embed n)
  ++ match contextual_embedder n with
     | Some m => module_parameters P_contextual_embedder m
     | None => []
     end
  ++ module_parameters P_cheater_input_block (cheater_input_block n)
  ++ list_parameters P_input_blocks (net_input_blocks n)
  ++ module_parameters P_middle_block (middle_block n)
  ++ list_parameters P_output_blocks (net_output_blocks n)
  ++ module_parameters P_top_inp_raw (top_inp_raw n)
  ++ list_parameters P_top_inp_blocks (top_inp_blocks n)
  ++ module_parameters P_top_out_upsample (top_out_upsample n)
  ++ list_parameters P_top_out_blocks (top_out_blocks n)
  ++ module_parameters P_top_out_final (top_out_final n).

(** [sb.parameters()] for the block that the reference [sb] points to. *)
Definition block_parameters (n : network) (sb : nat) : list param :=
  match net_input_blocks n !! sb with
  | Some m => module_parameters (P_input_blocks sb) m
  | None => []
  end.

(** [p.DO_NOT_TRAIN = True; p.requires_grad = False] *)
Definition freeze (s : store) (p : param) : store :=
  let s := update s p (mkAttrs (requires_grad (s p)) (Some true)) in
  update s p (mkAttrs false (DO_NOT_TRAIN (s p))).

(** [del p.DO_NOT_TRAIN; p.requires_grad = True] *)
Definition unfreeze (s : store) (p : param) : outcome store :=
  match DO_NOT_TRAIN (s p) with
  | None => Raised AttributeError
  | Some _ =>
      let s := update s p (mkAttrs (requires_grad (s p)) None) in
      Returned (update s p (mkAttrs true (DO_NOT_TRAIN (s p))))
  end.

(** The block guarded by [if only_train_dvae_connection_layers]. *)
Definition train_only_connection_layers (n : network) (s : store) : outcome store :=
  let s := fold_left freeze (parameters n) s in
  for_loop (fun s sb => for_loop unfreeze s (block_parameters n sb))
           s (net_spectrogram_blocks n).

Definition __init__ (hp : hparams) : outcome model :=
  let? n := assemble hp in
  let s := fun _ => fresh_attrs in
  let? s := if only_train_dvae_connection_layers hp
            then train_only_connection_layers n s
            else Returned s in
  Returned (mkModel n s (conditioning_inputs_provided hp)).

(** The parameters that the second loop visits. *)
Definition connection_params (n : network) : list param :=
  flat_map (block_parameters n) (net_spectrogram_blocks n).

(** A parameter of a conditioning block of the down path. *)
Definition is_connection_param (n : network) (p : param) : bool :=
  match fst p with
  | P_input_blocks i =>
      match net_input_blocks n !! i with
      | Some m => is_spectrogram_block m
      | None => false
      end
  | _ => false
  end.

End Parameters.

(** The same arguments with another value of the flag. *)
Definition with_only_train (hp : hparams) (flag : bool) : hparams :=
  mkHparams (model_channels hp) (in_channels hp) (out_channels hp) (discrete_codes hp)
            (channel_mult hp) (num_res_blocks hp)
            (spectrogram_conditioning_resolutions hp) (attention_resolutions hp)
            (num_heads hp) (num_heads_upsample hp) (resblock_updown hp)
            (conditioning_inputs_provided hp) (time_embed_dim_multiplier hp) flag.

(** *** The forward pass *)

Section Forward.
Context {tensor : Type}.

(** [x.shape[-1]] *)
Variable last_dim : tensor -> nat.

(** Lines 336 to 377 once the bounds are chosen: the embeddings, the top
    blocks on [x[:, :, rand_start:rand_stop]], the unet and the top
    output blocks. *)
Variable evaluate :
  model -> tensor -> tensor -> tensor -> option tensor -> Z -> Z -> tensor.

(** [random.randint(a, b)]: some integer of [[a, b]], picked by the
    generator's state. *)
Definition randint (a b : Z) (entropy : Z) : Z := a + entropy mod (b - a + 1).

(** The two [assert]s that open [forward]. *)
Definition entry_checks (self : model) (x : tensor)
    (conditioning_input : option tensor) : outcome unit :=
  if negb (Z.of_nat (last_dim x) mod 4096 =? 0) then Raised AssertionError
  else if conditioning_enabled self then
    match conditioning_input with
    | None => Raised AssertionError
    | Some _ => Returned tt
    end
  else Returned tt.

Definition truncation_bounds (training : bool) (x : tensor) (entropy : Z) : Z * Z :=
  let n := Z.of_nat (last_dim x) in
  if training then
    let rand_start := randint 0 (n / 2) entropy / 2 * 2 in
    let rand_stop := rand_start + n / 2 in
    (rand_start, rand_stop)
  else (0, n).

(** [forward(x, timesteps, spectrogram, conditioning_input)];
    [training] is [self.training]. *)
Definition forward (self : model) (training : bool)
    (x timesteps spectrogram : tensor) (conditioning_input : option tensor)
    (entropy : Z) : outcome (tensor * Z * Z) :=
  let? _ := entry_checks self x conditioning_input in
  let bounds := truncation_bounds training x entropy in
  let rand_start := fst bounds in
  let rand_stop := snd bounds in
  Returned (evaluate self x timesteps spectrogram conditioning_input rand_start rand_stop,
            rand_start, rand_stop).

End Forward.

(** *** Channel counts along the forward pass *)

(** What a layer does to the channel count of its input, read off the
    arguments it was built with: a layer built for [channels] inputs
    accepts exactly that many and gives its [out_channels].  [None]
    means that the widths disagree. *)
Definition layer_channels (l : layer) (c : Z) : option Z :=
  match l with
  | linear i o => if c =? i then Some o else None
  | SiLU => Some c
  | normalization ch => if c =? ch then Some c else None
  | conv_nd i o _ => if c =? i then Some o else None
  | zero_conv_nd i o => if c =? i then Some o else None
  | ResBlock ch out _ => if c =? ch then Some out else None
  | AttentionBlock ch _ => if c =? ch then Some ch else None
  | Downsample ch out => if c =? ch then Some out else None
  | Upsample ch out => if c =? ch then Some out else None
  end.

Fixpoint layers_channels (ls : list layer) (c : Z) : option Z :=
  match ls with
  | [] => Some c
  | l :: ls' =>
      match layer_channels l c with
      | Some c' => layers_channels ls' c'
      | None => None
      end
  end.

(** A conditioning block returns [torch.cat([x, emb], dim=1)], where
    [emb] has the [channels] of the block. *)
Definition module_channels (m : module_) (c : Z) : option Z :=
  match m with
  | Sequential ls => layers_channels ls c
  | TimestepEmbedSequential ls => layers_channels ls c
  | DiscreteSpectrogramConditioningBlock _ channels => Some (c + channels)
  | AudioMiniEncoder _ _ => None
  end.

(** The loop of [forward] over [self.input_blocks]: a conditioning block
    only transforms [h]; every other block also appends its output to
    [hs]. *)
Definition input_step (st : option (Z * list Z)) (m : module_) : option (Z * list Z) :=
  match st with
  | None => None
  | Some (h, hs) =>
      match module_channels m h with
      | None => None
      | Some h' =>
          if is_spectrogram_block m then Some (h', hs) else Some (h', hs ++ [h'])
      end
  end.

(** The loop over [self.output_blocks]:
    [h = module(torch.cat([h, hs.pop()], dim=1), emb)]. *)
Definition output_step (st : option (Z * list Z)) (m : module_) : option (Z * list Z) :=
  match st with
  | None => None
  | Some (h, hs) =>
      match pop hs with
      | Raised _ => None
      | Returned (skip, hs') =>
          match module_channels m (h + skip) with
          | None => None
          | Some h' => Some (h', hs')
          end
      end
  end.

(** Lines 357 to 368 of [forward] on channel counts: the channels of
    [h] and the channels held in [hs] after the last output block. *)
Definition unet_channels (n : network) (x_channels : Z) : option (Z * list Z) :=
  match module_channels (cheater_input_block n) x_channels with
  | None => None
  | Some h =>
      match fold_left input_step (net_input_blocks n) (Some (h, [])) with
      | None => None
      | Some (h, hs) =>
          match module_channels (middle_block n) h with
          | None => None
          | Some h => fold_left output_step (net_output_blocks n) (Some (h, hs))
          end
      end
  end.

(** Line 371: the part of the unet output kept for the top blocks. *)
Definition unet_window (bounds : Z * Z) : Z * Z := (fst bounds / 2, snd bounds / 2).

(** The construction of the script at the end of the file,
    [DiffusionVocoderWithRefTruncatedTop(32, conditioning_inputs_provided=True,
    time_embed_dim_multiplier=8)] with the defaults of the signature, for the
    examples. *)
Module Fixture.

Definition script_hparams (only_train : bool) : hparams :=
  mkHparams 32 1 2 512
            [1; 3 # 2; 2; 3; 4; 6; 8; 12; 16; 24; 32; 48]%Q
            [1; 1; 1; 1; 1; 2; 2; 2; 2; 2; 2; 2]%nat
            [512] [512; 1024; 2048]
            1 (-1) false true 8 only_train.

(** Three multipliers with only two block counts. *)
Definition short_hparams : hparams :=
  mkHparams 32 1 2 512 [1; 2; 4]%Q [1; 2]%nat [2] [4] 1 (-1) false true 8 false.

(** A stand-in for the parameter counts: a weight and a bias each. *)
Definition two_params (_ : module_) : nat := 2%nat.

Definition blank_network : network :=
  mkNetwork (Sequential []) None (Sequential []) [] (Sequential []) []
            (Sequential []) [] (Sequential []) [] (Sequential []) [] 0.

Definition script_network : network :=
  match assemble (script_hparams true) with
  | Returned n => n
  | Raised _ => blank_network
  end.

Definition script_model : model :=
  match __init__ two_params (script_hparams false) with
  | Returned m => m
  | Raised _ => mkModel blank_network (fun _ => fresh_attrs) true
  end.

(** Tensors reduced to the length of their last dimension. *)
Definition length_of (x : Z) : nat := Z.to_nat x.

Definition echo (_ : model) (x _ _ : Z) (_ : option Z) (_ _ : Z) : Z := x.

End Fixture.

End Vocoder.

(** ** Dataset and dataloader creation *)

(** [codes/data/__init__.py]: option dictionaries are finite maps from
    strings to the values below. *)
Module DataInit.

Inductive pyval :=
| PyNone
| PyBool (b : bool)
| PyInt (z : Z)
| PyStr (s : string).

(** The exceptions of this file.  [Unmodelled] stands for a call whose
    result is outside the values above ([str % int], which formats). *)
Inductive error :=
| KeyError (key : string)
| AttributeError (name : string)
| AssertionError
| TypeError
| ValueError
| ZeroDivisionError
| NotImplementedError (mode : string)
| Unmodelled.

Inductive result (A : Type) :=
| Ok (a : A)
| Err (e : error).
Arguments Ok {A} a.
Arguments Err {A} e.

Definition rbind {A B} (c : result A) (k : A -> result B) : result B :=
  match c with
  | Ok a => k a
  | Err e => Err e
  end.

Notation "'try!' x ':=' c 'in' k" := (rbind c (fun x => k))
  (at level 10, x name, c at level 100, k at level 200).

(** [d[key]] *)
Definition item (d : gmap string pyval) (key : string) : result pyval :=
  match d !! key with
  | Some v => Ok v
  | None => Err (KeyError key)
  end.

(** [d.name] on a munchified dictionary. *)
Definition attribute (d : gmap string pyval) (name : string) : result pyval :=
  match d !! name with
  | Some v => Ok v
  | None => Err (AttributeError name)
  end.

(** [v == 'literal'] *)
Definition is_str (v : pyval) (literal : string) : bool :=
  match v with
  | PyStr s => String.eqb s literal
  | _ => false
  end.

(** The truth value of [v], as [if v] and [v or w] take it. *)
Definition truthy (v : pyval) : bool :=
  match v with
  | PyNone => false
  | PyBool b => b
  | PyInt z => negb (z =? 0)
  | PyStr s => negb (String.eqb s "")
  end.

(** The integer behind a value that [%] and [//] accept as a number. *)
Definition as_int (v : pyval) : result Z :=
  match v with
  | PyInt z => Ok z
  | PyBool b => Ok (if b then 1 else 0)
  | PyNone => Err TypeError
  | PyStr _ => Err Unmodelled
  end.

(** [v % b] and [v // b] for an integer [b]. *)
Definition modulo (v : pyval) (b : Z) : result Z :=
  try! a := as_int v in
  if b =? 0 then Err ZeroDivisionError else Ok (a mod b).

Definition floordiv (v : pyval) (b : Z) : result Z :=
  try! a := as_int v in
  if b =? 0 then Err ZeroDivisionError else Ok (a / b).

Section Loader.
Context {dataset_t sampler_t collate_t : Type}.

(** The keyword arguments handed to [torch.utils.data.DataLoader];
    [drop_last] is its default [False] when the call does not pass it. *)
Record DataLoader := mkDataLoader {
  dl_dataset : dataset_t;
  dl_batch_size : pyval;
  dl_shuffle : bool;
  dl_num_workers : pyval;
  dl_sampler : option sampler_t;
  dl_drop_last : bool;
  dl_pin_memory : bool;
  dl_collate_fn : option collate_t
}.

(** [create_dataloader]; [dist] is the truth value of
    [opt_get(opt, ['dist'], False)] and [world_size] what
    [torch.distributed.get_world_size()] returns. *)
Definition create_dataloader (dataset : dataset_t) (dataset_opt : gmap string pyval)
    (dist : bool) (world_size : Z) (sampler : option sampler_t)
    (collate_fn : option collate_t) (shuffle : bool) : result DataLoader :=
  try! phase := item dataset_opt "phase" in
  if is_str phase "train" then
    if dist then
      try! num_workers := item dataset_opt "n_workers" in
      try! checked := item dataset_opt "batch_size" in
      try! remainder := modulo checked world_size in
      if negb (remainder =? 0) then Err AssertionError
      else
        try! total := item dataset_opt "batch_size" in
        try! batch_size := floordiv total world_size in
        Ok (mkDataLoader dataset (PyInt batch_size) shuffle num_workers sampler
                         true true collate_fn)
    else
      try! num_workers := item dataset_opt "n_workers" in
      try! batch_size := item dataset_opt "batch_size" in
      Ok (mkDataLoader dataset batch_size shuffle num_workers sampler
                       true true collate_fn)
  else
    try! configured := item dataset_opt "batch_size" in
    let batch_size := if truthy configured then configured else PyInt 1 in
    Ok (mkDataLoader dataset batch_size false (PyInt 0) None false true collate_fn).

End Loader.

Arguments DataLoader : clear implicits.

(** The dataset classes that [create_dataset] can import. *)
Inductive dataset_class :=
| FullImageDataset
| SingleImageDataset
| MultiFrameDataset
| CombinedDataset
| MultiScaleDataset
| PairedFrameDataset
| Stylegan2Dataset
| ImageFolderDataset
| TorchDataset
| ByolDatasetWrapper
| StructuredCropDatasetWrapper
| DatasetRandomAugWrapper
| RandomDataset
| ZipFileDataset
| TextMelLoader
| GptTtsDataset
| WavfileDataset
| StopPredictionDataset
| StopPredictionDataset2.

(** The collate objects: [TextMelCollate(n_frames_per_step)] and
    [GptTtsCollater(dataset_opt)]. *)
Inductive collate :=
| TextMelCollate (n_frames_per_step : pyval)
| GptTtsCollater (dataset_opt : gmap string pyval).

(** [D(dataset_opt)]: the class and the options it is built from. *)
Record dataset := mkDataset {
  ds_class : dataset_class;
  ds_opt : gmap string pyval
}.

(** What [create_dataset] returns: the dataset, or the pair of the
    dataset and the collate object (possibly [None]). *)
Inductive created :=
| Dataset (d : dataset)
| DatasetAndCollate (d : dataset) (c : option collate).

Section Create.
(** [models.tacotron2.hparams.create_hparams()] and
    [utils.util.opt_get]. *)
Variable create_hparams : gmap string pyval.
Variable opt_get : gmap string pyval -> list string -> pyval -> pyval.

(** [default_params.update(dataset_opt)]: the given options win. *)
Definition with_defaults (dataset_opt : gmap string pyval) : gmap string pyval :=
  dataset_opt ∪ create_hparams.

(** The chain of [if mode == ...] of [create_dataset]: the class, the
    options the class is called with and the collate object. *)
Definition select (mode : pyval) (dataset_opt : gmap string pyval)
    : result (dataset_class * gmap string pyval * option collate) :=
  if is_str mode "fullimage" then Ok (FullImageDataset, dataset_opt, None)
  else if is_str mode "single_image_extensible" then Ok (SingleImageDataset, dataset_opt, None)
  else if is_str mode "multi_frame_extensible" then Ok (MultiFrameDataset, dataset_opt, None)
  else if is_str mode "combined" then Ok (CombinedDataset, dataset_opt, None)
  else if is_str mode "multiscale" then Ok (MultiScaleDataset, dataset_opt, None)
  else if is_str mode "paired_frame" then Ok (PairedFrameDataset, dataset_opt, None)
  else if is_str mode "stylegan2" then Ok (Stylegan2Dataset, dataset_opt, None)
  else if is_str mode "imagefolder" then Ok (ImageFolderDataset, dataset_opt, None)
  else if is_str mode "torch_dataset" then Ok (TorchDataset, dataset_opt, None)
  else if is_str mode "byol_dataset" then Ok (ByolDatasetWrapper, dataset_opt, None)
  else if is_str mode "byol_structured_dataset"
       then Ok (StructuredCropDatasetWrapper, dataset_opt, None)
  else if is_str mode "random_aug_wrapper" then Ok (DatasetRandomAugWrapper, dataset_opt, None)
  else if is_str mode "random_dataset" then Ok (RandomDataset, dataset_opt, None)
  else if is_str mode "zipfile" then Ok (ZipFileDataset, dataset_opt, None)
  else if is_str mode "nv_tacotron" then
    let dataset_opt := with_defaults dataset_opt in
    if truthy (opt_get dataset_opt ["needs_collate"%string] (PyBool true)) then
      try! n := attribute dataset_opt "n_frames_per_step" in
      Ok (TextMelLoader, dataset_opt, Some (TextMelCollate n))
    else Ok (TextMelLoader, dataset_opt, None)
  else if is_str mode "gpt_tts"
       then Ok (GptTtsDataset, dataset_opt, Some (GptTtsCollater dataset_opt))
  else if is_str mode "wavfile_clips" then Ok (WavfileDataset, dataset_opt, None)
  else if is_str mode "stop_prediction"
       then Ok (StopPredictionDataset, with_defaults dataset_opt, None)
  else if is_str mode "stop_prediction2" then Ok (StopPredictionDataset2, dataset_opt, None)
  else
    match mode with
    | PyStr s => Err (NotImplementedError s)
    | PyNone => Err TypeError
    | _ => Err ValueError
    end.

Definition create_dataset (dataset_opt : gmap string pyval) (return_collate : bool)
    : result created :=
  try! mode := item dataset_opt "mode" in
  try! chosen := select mode dataset_opt in
  let '(D, dataset_opt, collate) := chosen in
  let dataset := mkDataset D dataset_opt in
  if return_collate then Ok (DatasetAndCollate dataset collate)
  else Ok (Dataset dataset).

End Create.

(** The dataset inside what [create_dataset] returns. *)
Definition dataset_of (r : created) : dataset :=
  match r with
  | Dataset d => d
  | DatasetAndCollate d _ => d
  end.

(** The mode names that the chain of [create_dataset] tests. *)
Definition known_modes : list string :=
  ["fullimage"; "single_image_extensible"; "multi_frame_extensible"; "combined";
   "multiscale"; "paired_frame"; "stylegan2"; "imagefolder"; "torch_dataset";
   "byol_dataset"; "byol_structured_dataset"; "random_aug_wrapper"; "random_dataset";
   "zipfile"; "nv_tacotron"; "gpt_tts"; "wavfile_clips"; "stop_prediction";
   "stop_prediction2"]%string.

(** Options for the examples. *)
Definition train_opt : gmap string pyval :=
  <["phase" := PyStr "train"]> (<["n_workers" := PyInt 4]> (<["batch_size" := PyInt 32]> ∅)).

Definition val_opt : gmap string pyval :=
  <["phase" := PyStr "val"]> (<["batch_size" := PyInt 0]> ∅).

Definition tacotron_opt : gmap string pyval :=
  <["mode" := PyStr "nv_tacotron"]> (<["path" := PyStr "clips"]> ∅).

Definition tacotron_defaults : gmap string pyval :=
  <["n_frames_per_step" := PyInt 1]> (<["path" := PyStr "default"]> ∅).

(** A stand-in for [opt_get] on one key: the stored value, or the
    default when the key is absent or holds [None]. *)
Definition lookup_or (d : gmap string pyval) (keys : list string) (default : pyval) : pyval :=
  match keys with
  | [k] => match d !! k with
           | Some PyNone => default
           | Some v => v
           | None => default
           end
  | _ => default
  end.

End DataInit.

(** ** The script at the end of the dataset file *)

Module DebugScript.
Import TileTree.

(** [tree_ind = random.randint(0, len(multiscale_tree))] followed by
    [node = multiscale_tree[tree_ind]]. *)
Definition pick_leaf (multiscale_tree : list addr) (entropy : Z) : outcome addr :=
  let tree_ind := Vocoder.randint 0 (Z.of_nat (length multiscale_tree)) entropy in
  py_list_get multiscale_tree tree_ind.

(** The loop [while node is not None]: [saved] collects the entries
    [v[node.index]] handed to [save_image], and the result carries the
    final [depth].  [None] means that the loop is still running when the
    fuel is spent. *)
Fixpoint walk_up {A} (fuel : nat) (h : list MultiscaleTreeNode) (v : list A)
    (node : option addr) (depth : Z) (saved : list A)
    : option (outcome (Z * list A)) :=
  match node with
  | None => Some (Returned (depth, saved))
  | Some a =>
      match fuel with
      | O => None
      | S fuel' =>
          match h !! a with
          | None => Some (Raised AttributeError)
          | Some n =>
              match py_list_get v (index n) with
              | Raised e => Some (Raised e)
              | Returned x =>
                  walk_up fuel' h v (parent n) (depth + 1) (saved ++ [x])
              end
          end
      end
  end.

End DebugScript.

(** * Proofs *)

(** ** The tile tree *)

Module TileTreeProofs.
Import TileTree.

Lemma links_app h1 h2 : links (h1 ++ h2) = links h1 ++ links h2.
Proof. apply map_app. Qed.

Lemma links_length h : length (links h) = length h.
Proof. apply length_map. Qed.

Lemma links_add_child h self child :
  links (alter (fun n => mkNode (index n) (parent n) (children n ++ [child])) self h)
  = links h.
Proof.
  revert self. induction h as [|n h IH]; intros [|i]; simpl; try reflexivity.
  f_equal. apply IH.
Qed.

Lemma links_lookup h a :
  links h !! a = (fun n => (index n, parent n)) <$> (h !! a).
Proof. unfold links. apply list_lookup_fmap. Qed.

Lemma parent_of_links h a :
  parent_of h a = match links h !! a with Some (_, p) => p | None => None end.
Proof. unfold parent_of. rewrite links_lookup. destruct (h !! a); simpl; reflexivity. Qed.

Lemma ext_refl h : ext h h.
Proof. exists []. symmetry. apply app_nil_r. Qed.

Lemma ext_trans h1 h2 h3 : ext h1 h2 -> ext h2 h3 -> ext h1 h3.
Proof.
  intros [t1 H1] [t2 H2]. exists (t1 ++ t2). rewrite H2, H1. symmetry. apply app_assoc.
Qed.

Lemma ext_lookup h h' a x : ext h h' -> links h !! a = Some x -> links h' !! a = Some x.
Proof. intros [t Ht] Hl. rewrite Ht. apply lookup_app_l_Some. exact Hl. Qed.

Lemma ext_parent_of h h' a p :
  ext h h' -> parent_of h a = Some p -> parent_of h' a = Some p.
Proof.
  intros He. rewrite !parent_of_links.
  destruct (links h !! a) as [[i q]|] eqn:E; [|discriminate].
  rewrite (ext_lookup _ _ _ _ He E). trivial.
Qed.

Lemma ext_climb h h' k : forall a r,
  ext h h' -> climb h k a = Some r -> climb h' k a = Some r.
Proof.
  induction k as [|k IH]; simpl; intros a r He Hc; [exact Hc|].
  destruct (parent_of h a) as [p|] eqn:E; [|discriminate].
  rewrite (ext_parent_of _ _ _ _ He E). eauto.
Qed.

Lemma climb_snoc h k : forall a c p,
  climb h k a = Some c -> parent_of h c = Some p -> climb h (S k) a = Some p.
Proof.
  induction k as [|k IH]; intros a c p Hc Hp.
  - simpl in Hc. injection Hc as ->. simpl. rewrite Hp. reflexivity.
  - change (climb h (S k) a) with
      (match parent_of h a with Some q => climb h k q | None => None end) in Hc.
    change (climb h (S (S k)) a) with
      (match parent_of h a with Some q => climb h (S k) q | None => None end).
    destruct (parent_of h a) as [q|]; [|discriminate]. eauto.
Qed.

Lemma climb_root_unique h j : forall k a r r',
  climb h j a = Some r -> parent_of h r = None ->
  climb h k a = Some r' -> parent_of h r' = None -> j = k.
Proof.
  induction j as [|j IH]; intros [|k] a r r' Hj Hr Hk Hr'; simpl in *.
  - reflexivity.
  - injection Hj as <-. rewrite Hr in Hk. discriminate.
  - injection Hk as <-. rewrite Hr' in Hj. discriminate.
  - destruct (parent_of h a) as [p|]; [|discriminate]. f_equal. eauto.
Qed.

(** The four children of one call. *)
Lemma spawn_children ind node w :
  exists w',
    comprehension (fun i => let! c := new_node (ind + i) (Some node) in add_child node c)
                  range4 w
    = Returned ([length (nodes w); S (length (nodes w)); S (S (length (nodes w)));
                 S (S (S (length (nodes w))))], w')
    /\ links (nodes w') = links (nodes w) ++
         [(ind + 0, Some node); (ind + 1, Some node); (ind + 2, Some node); (ind + 3, Some node)]
    /\ leaves w' = leaves w.
Proof.
  eexists. split; [|split].
  - unfold range4, comprehension, bind, new_node, add_child, ret. simpl.
    rewrite !length_alter, !length_app. simpl. rewrite !length_alter, !length_app. simpl.
    rewrite !length_alter, !length_app. simpl.
    replace (length (nodes w) + 1)%nat with (S (length (nodes w))) by lia.
    replace (S (length (nodes w)) + 1)%nat with (S (S (length (nodes w)))) by lia.
    replace (S (S (length (nodes w))) + 1)%nat with (S (S (S (length (nodes w))))) by lia.
    reflexivity.
  - simpl. rewrite !links_add_child, !links_app. simpl.
    rewrite !links_add_child, !links_app. simpl.
    rewrite !links_add_child, !links_app. simpl.
    rewrite !links_add_child, !links_app. simpl.
    rewrite <- !app_assoc. reflexivity.
  - reflexivity.
Qed.

Section Level.
Variables (fuel k : nat).
Hypothesis IH : forall ind node w,
  exists ind' w',
    _build_multiscale_patch_index_map fuel (Z.of_nat k) ind node w = Returned (ind', w')
    /\ grows k node (4 ^ k) w w'.

Lemma for_each_children node : forall cs ind w,
  (forall c, c ∈ cs -> parent_of (nodes w) c = Some node) ->
  exists ind' w',
    for_each (fun ind n => _build_multiscale_patch_index_map fuel (Z.of_nat k) ind n)
             ind cs w = Returned (ind', w')
    /\ grows (S k) node (length cs * 4 ^ k) w w'.
Proof.
  induction cs as [|c cs IHcs]; intros ind w Hp.
  - exists ind, w. split; [reflexivity|]. split; [apply ext_refl|].
    exists []. repeat split.
    + symmetry. apply app_nil_r.
    + intros l Hl. inversion Hl.
  - destruct (IH ind c w) as (ind1 & w1 & E1 & X1 & new1 & L1 & N1 & C1).
    destruct (IHcs ind1 w1) as (ind2 & w2 & E2 & X2 & new2 & L2 & N2 & C2).
    { intros c' Hc'. apply (ext_parent_of _ _ _ _ X1). apply Hp. by right. }
    exists ind2, w2. split.
    { simpl. unfold bind. rewrite E1. exact E2. }
    split; [eapply ext_trans; eauto|].
    exists (new1 ++ new2). repeat split.
    + rewrite L2, L1. symmetry. apply app_assoc.
    + rewrite length_app, N1, N2. simpl. lia.
    + intros l Hl. apply elem_of_app in Hl as [Hl|Hl]; [|by apply C2].
      apply climb_snoc with c.
      * apply (ext_climb _ _ _ _ _ X2). by apply C1.
      * apply (ext_parent_of _ _ _ _ (ext_trans _ _ _ X1 X2)). apply Hp. by left.
Qed.
End Level.

Lemma build_unfold fuel depth ind node :
  _build_multiscale_patch_index_map (S fuel) depth ind node =
  (let! subnodes := comprehension
                      (fun i => let! c := new_node (ind + i) (Some node) in
                                add_child node c)
                      range4 in
   if depth =? 1 then
     let! _ := leaves_extend subnodes in
     ret (ind + 4)
   else
     for_each (fun ind n => _build_multiscale_patch_index_map fuel (depth - 1) ind n)
              (ind + 4) subnodes).
Proof. reflexivity. Qed.

Lemma spawned_parent ind node w w' l :
  links (nodes w') = links (nodes w) ++
    [(ind + 0, Some node); (ind + 1, Some node); (ind + 2, Some node); (ind + 3, Some node)] ->
  l ∈ [length (nodes w); S (length (nodes w)); S (S (length (nodes w)));
       S (S (S (length (nodes w))))] ->
  parent_of (nodes w') l = Some node.
Proof.
  intros K Hl. rewrite parent_of_links, K.
  rewrite <- (links_length (nodes w)) in Hl.
  set (n := length (links (nodes w))) in *.
  repeat (apply elem_of_cons in Hl as [->|Hl]); [..|inversion Hl].
  - rewrite lookup_app_r by (unfold n; lia).
    replace (_ - _)%nat with 0%nat by (unfold n; lia). reflexivity.
  - rewrite lookup_app_r by (unfold n; lia).
    replace (_ - _)%nat with 1%nat by (unfold n; lia). reflexivity.
  - rewrite lookup_app_r by (unfold n; lia).
    replace (_ - _)%nat with 2%nat by (unfold n; lia). reflexivity.
  - rewrite lookup_app_r by (unfold n; lia).
    replace (_ - _)%nat with 3%nat by (unfold n; lia). reflexivity.
Qed.

Lemma build_level : forall k fuel ind node w,
  (k < fuel)%nat ->
  exists ind' w',
    _build_multiscale_patch_index_map fuel (Z.of_nat (S k)) ind node w = Returned (ind', w')
    /\ grows (S k) node (4 ^ S k) w w'.
Proof.
  induction k as [|k IHk]; intros [|fuel] ind node w Hf; try lia.
  - destruct (spawn_children ind node w) as (w1 & E1 & K1 & L1).
    eexists _, _. split.
    { rewrite build_unfold. unfold bind at 1. rewrite E1.
      change (Z.of_nat 1 =? 1) with true. cbv iota. reflexivity. }
    split.
    + simpl. eexists. exact K1.
    + eexists. split; [simpl; rewrite L1; reflexivity|]. split; [reflexivity|].
      intros l Hl. simpl.
      rewrite (spawned_parent _ _ _ _ _ K1 Hl). reflexivity.
  - destruct (spawn_children ind node w) as (w1 & E1 & K1 & L1).
    destruct (for_each_children fuel (S k) (fun i n v => IHk fuel i n v ltac:(lia)) node
                [length (nodes w); S (length (nodes w)); S (S (length (nodes w)));
                 S (S (S (length (nodes w))))] (ind + 4) w1)
      as (ind2 & w2 & E2 & X2 & new & L2 & N2 & C2).
    { intros c Hc. eapply spawned_parent; eauto. }
    exists ind2, w2. split.
    { rewrite build_unfold. unfold bind at 1. rewrite E1.
      replace (Z.of_nat (S (S k)) =? 1) with false by (symmetry; apply Z.eqb_neq; lia).
      replace (Z.of_nat (S (S k)) - 1) with (Z.of_nat (S k)) by lia.
      exact E2. }
    split.
    + eapply ext_trans; [|exact X2]. eexists. exact K1.
    + exists new. split; [rewrite L2, L1; reflexivity|]. split; [|exact C2].
      rewrite N2. simpl. lia.
Qed.

(** Below the base case the recursion never stops. *)
Lemma build_runs_away : forall fuel depth ind node w,
  depth <= 0 ->
  _build_multiscale_patch_index_map fuel depth ind node w = Raised RecursionError.
Proof.
  induction fuel as [|fuel IH]; intros depth ind node w Hd; [reflexivity|].
  destruct (spawn_children ind node w) as (w1 & E1 & _).
  rewrite build_unfold. unfold bind at 1. rewrite E1.
  replace (depth =? 1) with false by (symmetry; apply Z.eqb_neq; lia).
  simpl. unfold bind at 1. rewrite IH by lia. reflexivity.
Qed.

(** The guard of the entry point. *)
Lemma build_negative fuel depth :
  depth < 0 ->
  build_multiscale_patch_index_map fuel depth = Returned (None, empty_world).
Proof.
  intros Hd. unfold build_multiscale_patch_index_map.
  replace (depth <? 0) with true by (symmetry; apply Z.ltb_lt; lia). reflexivity.
Qed.

Lemma build_lost fuel depth :
  0 <= depth <= 1 ->
  build_multiscale_patch_index_map fuel depth = Raised RecursionError.
Proof.
  intros Hd. unfold build_multiscale_patch_index_map.
  replace (depth <? 0) with false by (symmetry; apply Z.ltb_ge; lia).
  unfold bind at 1. unfold new_node at 1. cbv beta iota.
  unfold bind at 1. rewrite build_runs_away by lia. reflexivity.
Qed.

Lemma build_succeeds fuel depth :
  2 <= depth -> (Z.to_nat (depth - 1) <= fuel)%nat ->
  exists lv w,
    build_multiscale_patch_index_map fuel depth = Returned (Some lv, w)
    /\ leaves w = lv
    /\ grows (Z.to_nat (depth - 1)) 0%nat (4 ^ Z.to_nat (depth - 1))
             (mkWorld [mkNode 0 None []] []) w.
Proof.
  intros Hd Hf.
  destruct (Z.to_nat (depth - 1)) as [|k] eqn:Ek; [lia|].
  destruct (build_level k fuel 1 0%nat (mkWorld [mkNode 0 None []] []) ltac:(lia))
    as (ind' & w' & E & G).
  exists (leaves w'), w'. split; [|split; [reflexivity|exact G]].
  unfold build_multiscale_patch_index_map.
  replace (depth <? 0) with false by (symmetry; apply Z.ltb_ge; lia).
  unfold bind at 1. unfold new_node at 1. cbv beta iota.
  unfold bind at 1. simpl nodes. simpl leaves. simpl length.
  replace (depth - 1) with (Z.of_nat (S k)) by lia.
  change ([] ++ [mkNode 0 None []]) with [mkNode 0 None []].
  rewrite E. reflexivity.
Qed.

(** C1, amended: for every depth >= 2 the builder returns (with a call
    stack of at least depth - 1 frames) exactly 4^(depth-1) leaves, and
    from every returned leaf the parent links reach the root, the node
    with index 0 and no parent, after exactly depth - 1 steps. *)
Theorem build_leaves_and_chains (depth : Z) (fuel : nat) :
  2 <= depth -> (Z.to_nat (depth - 1) <= fuel)%nat ->
  exists lv w,
    build_multiscale_patch_index_map fuel depth = Returned (Some lv, w)
    /\ Z.of_nat (length lv) = 4 ^ (depth - 1)
    /\ forall l, l ∈ lv ->
         exists root,
           climb (nodes w) (Z.to_nat (depth - 1)) l = Some root
           /\ is_root (nodes w) root
           /\ forall j r, climb (nodes w) j l = Some r -> is_root (nodes w) r ->
                          j = Z.to_nat (depth - 1).
Proof.
  intros Hd Hf.
  destruct (build_succeeds fuel depth Hd Hf) as (lv & w & E & Hl & X & new & L & N & C).
  simpl in L. subst lv. rewrite L in *.
  exists new, w. split; [exact E|]. split.
  { rewrite N. rewrite Nat2Z.inj_pow. f_equal. lia. }
  assert (Hroot : is_root (nodes w) 0%nat).
  { destruct X as [t Ht]. simpl in Ht.
    assert (Hk : links (nodes w) !! 0%nat = Some (0, None)) by (rewrite Ht; reflexivity).
    rewrite links_lookup in Hk.
    destruct (nodes w !! 0%nat) as [n|] eqn:En; [|discriminate].
    simpl in Hk. exists n. split; [exact En|]. split; congruence. }
  intros l Hin. exists 0%nat. split; [by apply C|]. split; [exact Hroot|].
  intros j r Hj (n & Hn & _ & Hp).
  destruct Hroot as (n0 & Hn0 & _ & Hp0).
  eapply climb_root_unique.
  - exact Hj.
  - unfold parent_of. rewrite Hn. exact Hp.
  - apply C. exact Hin.
  - unfold parent_of. rewrite Hn0. exact Hp0.
Qed.

Lemma build_leaves_and_chains_witness :
  exists lv w,
    build_multiscale_patch_index_map 3 4 = Returned (Some lv, w)
    /\ Z.of_nat (length lv) = 4 ^ (4 - 1)
    /\ forall l, l ∈ lv ->
         exists root,
           climb (nodes w) (Z.to_nat (4 - 1)) l = Some root
           /\ is_root (nodes w) root
           /\ forall j r, climb (nodes w) j l = Some r -> is_root (nodes w) r ->
                          j = Z.to_nat (4 - 1).
Proof. apply (build_leaves_and_chains 4 3); [lia | vm_compute; lia]. Defined.

(** C1 as stated fails at depth 2: the builder returns 4 leaves, one
    parent link below the root, and with no call-stack budget does it
    return 4^2 leaves. *)
Lemma build_depth2_counterexample :
  (exists w, build_multiscale_patch_index_map 1 2
             = Returned (Some [1; 2; 3; 4]%nat, w)
             /\ forall l, l ∈ [1; 2; 3; 4]%nat ->
                  climb (nodes w) 1 l = Some 0%nat /\ climb (nodes w) 2 l = None)
  /\ ~ (exists fuel lv w,
          build_multiscale_patch_index_map fuel 2 = Returned (Some lv, w)
          /\ Z.of_nat (length lv) = 4 ^ 2).
Proof.
  split.
  - eexists. split; [vm_compute; reflexivity|].
    intros l Hl.
    repeat (apply elem_of_cons in Hl as [->|Hl]); [..|inversion Hl];
      split; reflexivity.
  - intros (fuel & lv & w & E & L).
    destruct fuel as [|fuel]; [discriminate|].
    cbv in E. injection E as <- _. discriminate.
Qed.

(** C2, the code at the failing input: at depth 0 the recursion starts
    below its base case, so every call-stack budget is exhausted and the
    call ends in RecursionError. *)
Theorem build_depth0_recursion_error (fuel : nat) :
  build_multiscale_patch_index_map fuel 0 = Raised RecursionError.
Proof. apply build_lost. lia. Qed.

End TileTreeProofs.

(** ** The multiscale dataset *)

Module MultiScaleDatasetProofs.
Import MultiScaleDataset.

Lemma geometric_sum_step n : geometric_sum (S n) = 1 + 4 * geometric_sum n.
Proof.
  induction n as [|n IH]; [reflexivity|].
  change (geometric_sum (S (S n))) with (geometric_sum (S n) + 4 ^ Z.of_nat (S n)).
  rewrite IH at 1. change (geometric_sum (S n)) with (geometric_sum n + 4 ^ Z.of_nat n).
  rewrite Nat2Z.inj_succ, Z.pow_succ_r by lia. lia.
Qed.

Lemma geometric_sum_closed n : 3 * geometric_sum n = 4 ^ Z.of_nat n - 1.
Proof.
  induction n as [|n IH]; [reflexivity|].
  change (geometric_sum (S n)) with (geometric_sum n + 4 ^ Z.of_nat n).
  rewrite Nat2Z.inj_succ, Z.pow_succ_r by lia. lia.
Qed.

Section Pyramid.
Context {pixel path tensor : Type}.
Variable cv2_resize : image pixel -> Z -> Z -> image pixel.
Variable read_img : path -> image pixel.
Variables channel_convert augment : image pixel -> image pixel.
Variable to_tensor : image pixel -> tensor.
Variable interpolate : Z -> tensor -> tensor.
Variable self : MultiScaleDataset path.

Local Abbreviation extract := (recursively_extract_patches cv2_resize self).

Lemma extract_stop input_img result_list depth :
  num_scales self <= depth ->
  extract input_img result_list depth = result_list.
Proof.
  intros H. rewrite recursively_extract_patches_equation_1.
  destruct (Z_ge_lt_dec depth (num_scales self)); [reflexivity|lia].
Qed.

Lemma extract_step input_img result_list depth :
  depth < num_scales self ->
  extract input_img result_list depth =
  fold_left (fun result_list p => extract p result_list (depth + 1))
            (quadrants input_img (hq_size_cap self / 2 ^ depth))
            (result_list ++
               map (fun p => cv2_resize p (tile_size self) (tile_size self))
                   (quadrants input_img (hq_size_cap self / 2 ^ depth))).
Proof.
  intros H. rewrite recursively_extract_patches_equation_1.
  destruct (Z_ge_lt_dec depth (num_scales self)); [lia|reflexivity].
Qed.

(** The list only grows at its end. *)
Lemma extract_prefix : forall n depth input_img result_list,
  Z.to_nat (num_scales self - depth) = n ->
  exists added, extract input_img result_list depth = result_list ++ added
                /\ Z.of_nat (length added) = 4 * geometric_sum n.
Proof.
  induction n as [|n IH]; intros depth input_img result_list Hn.
  - exists []. rewrite extract_stop by lia. split; [symmetry; apply app_nil_r|reflexivity].
  - rewrite extract_step by lia.
    set (ps := quadrants input_img (hq_size_cap self / 2 ^ depth)).
    assert (Hfold : forall (l : list (image pixel)) r,
               exists added,
                 fold_left (fun r p => extract p r (depth + 1)) l r = r ++ added
                 /\ Z.of_nat (length added) = Z.of_nat (length l) * (4 * geometric_sum n)).
    { induction l as [|p l IHl]; intros r.
      - exists []. split; [symmetry; apply app_nil_r|simpl; lia].
      - destruct (IH (depth + 1) p r ltac:(lia)) as (a1 & E1 & L1).
        simpl fold_left. rewrite E1.
        destruct (IHl (r ++ a1)) as (a2 & E2 & L2).
        exists (a1 ++ a2). split; [rewrite E2; symmetry; apply app_assoc|].
        rewrite length_app. simpl length. lia. }
    destruct (Hfold ps (result_list ++
                map (fun p => cv2_resize p (tile_size self) (tile_size self)) ps))
      as (a & E & L).
    eexists. split; [rewrite E, <- app_assoc; reflexivity|].
    rewrite length_app, length_map, Nat2Z.inj_add, L, geometric_sum_step.
    subst ps. simpl length. lia.
Qed.

Lemma patch_pyramid_shape (img_full : image pixel) :
  1 <= num_scales self ->
  exists rest,
    patch_pyramid cv2_resize self img_full =
      cv2_resize (cv2_resize img_full (hq_size_cap self) (hq_size_cap self))
                 (tile_size self) (tile_size self) :: rest
    /\ Z.of_nat (length (patch_pyramid cv2_resize self img_full))
       = geometric_sum (Z.to_nat (num_scales self)).
Proof.
  intros H. unfold patch_pyramid.
  destruct (extract_prefix (Z.to_nat (num_scales self - 1)) 1
              (cv2_resize img_full (hq_size_cap self) (hq_size_cap self))
              [cv2_resize (cv2_resize img_full (hq_size_cap self) (hq_size_cap self))
                          (tile_size self) (tile_size self)] eq_refl)
    as (added & E & L).
  rewrite E. exists added. split; [reflexivity|].
  simpl length. rewrite Nat2Z.inj_succ, L.
  replace (Z.to_nat (num_scales self)) with (S (Z.to_nat (num_scales self - 1))) by lia.
  rewrite geometric_sum_step. lia.
Qed.


(** The path lookup never fails on a dataset that has paths. *)
Lemma select_path_wraps (index : Z) :
  paths_hq self <> [] ->
  exists p, select_path self index = Returned p
            /\ paths_hq self !! Z.to_nat (index mod __len__ self) = Some p
            /\ 0 <= index mod __len__ self < __len__ self.
Proof.
  intros Hne. unfold select_path, py_mod, __len__.
  set (n := Z.of_nat (length (paths_hq self))).
  assert (Hn : 0 < n).
  { subst n. destruct (paths_hq self); [congruence|simpl; lia]. }
  replace (n =? 0) with false by (symmetry; apply Z.eqb_neq; lia).
  pose proof (Z.mod_pos_bound index n Hn) as Hm.
  unfold obind, py_list_get. fold n.
  assert (Hlt : (index mod n <? 0) = false) by (apply Z.ltb_ge; lia).
  assert (Hle : (n <=? index mod n) = false) by (apply Z.leb_gt; lia).
  cbv zeta. rewrite Hlt. cbv iota. rewrite Hlt, Hle. simpl orb. cbv iota.
  destruct (lookup_lt_is_Some_2 (paths_hq self) (Z.to_nat (index mod n))) as [p Hp].
  { subst n. lia. }
  rewrite Hp. exists p. auto.
Qed.

Local Abbreviation getitem :=
  (__getitem__ cv2_resize read_img channel_convert augment to_tensor interpolate self).

(** What [__getitem__] returns once the path is found. *)
Lemma getitem_returns (index : Z) (draw : Q) :
  paths_hq self <> [] ->
  exists p,
    paths_hq self !! Z.to_nat (index mod __len__ self) = Some p
    /\ 0 <= index mod __len__ self < __len__ self
    /\ getitem index draw =
       Returned
         (mkSample
            (map (interpolate (scale self))
               (map to_tensor
                  (patch_pyramid cv2_resize self
                     (get_square_image (augment (channel_convert (read_img p))) draw))))
            (map to_tensor
               (patch_pyramid cv2_resize self
                  (get_square_image (augment (channel_convert (read_img p))) draw)))
            p).
Proof.
  intros Hne. destruct (select_path_wraps index Hne) as (p & E & Hp & Hr).
  exists p. split; [exact Hp|]. split; [exact Hr|].
  unfold __getitem__. rewrite E. reflexivity.
Qed.

(** C3, amended: the HQ pyramid of [__getitem__] has length 1 when
    num_scales = 1 and length 5 when num_scales = 2; length 21 is reached
    at num_scales = 3. *)
Theorem pyramid_small_lengths (index : Z) (draw : Q) :
  paths_hq self <> [] ->
  exists s, getitem index draw = Returned s
            /\ (num_scales self = 1 -> length (HQ s) = 1%nat)
            /\ (num_scales self = 2 -> length (HQ s) = 5%nat)
            /\ (num_scales self = 3 -> length (HQ s) = 21%nat).
Proof.
  intros Hne. destruct (getitem_returns index draw Hne) as (p & _ & _ & E).
  eexists. split; [exact E|]. simpl HQ. rewrite length_map.
  repeat split; intros Hs;
    destruct (patch_pyramid_shape
                (get_square_image (augment (channel_convert (read_img p))) draw)
                ltac:(lia)) as (_ & _ & L);
    rewrite Hs in L.
  - change (geometric_sum (Z.to_nat 1)) with 1 in L. lia.
  - change (geometric_sum (Z.to_nat 2)) with 5 in L. lia.
  - change (geometric_sum (Z.to_nat 3)) with 21 in L. lia.
Qed.

(** C4: for every num_scales >= 1 the HQ pyramid of [__getitem__] has
    length 1 + 4 + ... + 4^(num_scales-1) = (4^num_scales - 1)/3, and
    slot 0 holds the full image resized to the tile size. *)
Theorem pyramid_length (index : Z) (draw : Q) :
  1 <= num_scales self ->
  paths_hq self <> [] ->
  exists s p,
    getitem index draw = Returned s
    /\ Z.of_nat (length (HQ s)) = geometric_sum (Z.to_nat (num_scales self))
    /\ Z.of_nat (length (HQ s)) = (4 ^ num_scales self - 1) / 3
    /\ GT_path s = p
    /\ HQ s !! 0%nat =
       Some (to_tensor
               (cv2_resize
                  (cv2_resize
                     (get_square_image (augment (channel_convert (read_img p))) draw)
                     (hq_size_cap self) (hq_size_cap self))
                  (tile_size self) (tile_size self))).
Proof.
  intros Hs Hne. destruct (getitem_returns index draw Hne) as (p & _ & _ & E).
  destruct (patch_pyramid_shape
              (get_square_image (augment (channel_convert (read_img p))) draw) Hs)
    as (rest & Hp & L).
  eexists _, p. split; [exact E|]. simpl HQ. simpl GT_path. rewrite length_map.
  split; [exact L|]. split; [|split; [reflexivity|]].
  - rewrite L. pose proof (geometric_sum_closed (Z.to_nat (num_scales self))) as Hc.
    rewrite Z2Nat.id in Hc by lia. rewrite <- Hc.
    rewrite Z.mul_comm, Z.div_mul by lia. reflexivity.
  - rewrite Hp. reflexivity.
Qed.

(** C10: for a non-negative index and a dataset with at least one path,
    [__getitem__] reads the path at position index % len(paths_hq),
    which is a valid position, and does not raise. *)
Theorem getitem_index_wraps (index : Z) (draw : Q) :
  0 <= index ->
  paths_hq self <> [] ->
  exists s, getitem index draw = Returned s
            /\ paths_hq self !! Z.to_nat (index mod __len__ self) = Some (GT_path s)
            /\ 0 <= index mod __len__ self < __len__ self
            /\ select_path self index = Returned (GT_path s).
Proof.
  intros _ Hne. destruct (getitem_returns index draw Hne) as (p & Hp & Hr & E).
  eexists. split; [exact E|]. simpl GT_path. split; [exact Hp|]. split; [exact Hr|].
  destruct (select_path_wraps index Hne) as (p' & E' & Hp' & _).
  rewrite E'. congruence.
Qed.

End Pyramid.

(** C3 as stated fails: with num_scales = 1 the pyramid has 1 entry, not
    5, and with num_scales = 2 it has 5 entries, not 21. *)
Lemma pyramid_lengths_counterexample :
  (exists s, Fixture.getitem 1 0 0 = Returned s
             /\ length (HQ s) = 1%nat /\ length (HQ s) <> 5%nat)
  /\ (exists s, Fixture.getitem 2 0 0 = Returned s
                /\ length (HQ s) = 5%nat /\ length (HQ s) <> 21%nat).
Proof.
  split; (eexists; split; [reflexivity|]); vm_compute; (split; [reflexivity|discriminate]).
Qed.

Lemma pyramid_small_lengths_witness :
  exists s, Fixture.getitem 2 7 0 = Returned s
            /\ (num_scales (Fixture.dataset 2) = 1 -> length (HQ s) = 1%nat)
            /\ (num_scales (Fixture.dataset 2) = 2 -> length (HQ s) = 5%nat)
            /\ (num_scales (Fixture.dataset 2) = 3 -> length (HQ s) = 21%nat).
Proof.
  apply (pyramid_small_lengths Fixture.resize (fun _ => Fixture.source) id id id
           (fun _ t => t) (Fixture.dataset 2) 7 0).
  discriminate.
Defined.

Lemma pyramid_length_witness :
  exists s p,
    Fixture.getitem 3 7 0 = Returned s
    /\ Z.of_nat (length (HQ s)) = geometric_sum (Z.to_nat 3)
    /\ Z.of_nat (length (HQ s)) = (4 ^ 3 - 1) / 3
    /\ GT_path s = p
    /\ HQ s !! 0%nat =
       Some (Fixture.resize
               (Fixture.resize (get_square_image Fixture.source 0) 16 16) 2 2).
Proof.
  apply (pyramid_length Fixture.resize (fun _ => Fixture.source) id id id
           (fun _ t => t) (Fixture.dataset 3) 7 0); [simpl; lia | discriminate].
Defined.

Lemma getitem_index_wraps_witness :
  exists s, Fixture.getitem 2 7 0 = Returned s
            /\ paths_hq (Fixture.dataset 2) !! Z.to_nat (7 mod __len__ (Fixture.dataset 2))
               = Some (GT_path s)
            /\ 0 <= 7 mod __len__ (Fixture.dataset 2) < __len__ (Fixture.dataset 2)
            /\ select_path (Fixture.dataset 2) 7 = Returned (GT_path s).
Proof.
  apply (getitem_index_wraps Fixture.resize (fun _ => Fixture.source) id id id
           (fun _ t => t) (Fixture.dataset 2) 7 0); [lia | discriminate].
Defined.

(** *** The square crop *)

Section Crop.
Context {pixel : Type}.

(** Truncation keeps a value between two integer bounds when the lower
    one is not negative. *)
Lemma py_int_between (q : Q) (a b : Z) :
  0 <= a -> (inject_Z a <= q)%Q -> (q <= inject_Z b)%Q -> a <= py_int q <= b.
Proof.
  intros Ha Hl Hu. unfold py_int, Qle, inject_Z in *. simpl in *.
  destruct q as [n d]. simpl in *.
  assert (Hn : 0 <= n) by nia.
  rewrite Z.quot_div_nonneg by lia. split.
  - apply Z.div_le_lower_bound; lia.
  - apply Z.div_le_upper_bound; lia.
Qed.

Lemma clamp_offset_bounds (draw : Q) :
  (-1 <= clamp_offset draw)%Q /\ (clamp_offset draw <= 1)%Q.
Proof.
  unfold clamp_offset. split.
  - apply Q.le_max_r.
  - apply Q.max_lub; [apply Q.le_min_r|discriminate].
Qed.

(** With a centre of at least 1 the crop start stays inside the slack. *)
Lemma crop_start_in_range (center : Z) (draw : Q) :
  1 <= center ->
  0 <= py_int (inject_Z center + clamp_offset draw * inject_Z (center - 2)) <= 2 * center.
Proof.
  intros Hc. destruct (clamp_offset_bounds draw) as [Hl Hu].
  set (o := clamp_offset draw) in *.
  apply py_int_between; [lia| |].
  - unfold Qle, Qplus, Qmult, inject_Z in *. destruct o as [n d]. simpl in *. nia.
  - unfold Qle, Qplus, Qmult, inject_Z in *. destruct o as [n d]. simpl in *. nia.
Qed.

(** Off the unit-slack case the crop is what the comment of the source
    promises: a square of the shorter side. *)
Lemma get_square_image_square (img : image pixel) (draw : Q) :
  0 <= height img -> 0 <= width img ->
  Z.abs (height img - width img) <> 1 ->
  height (get_square_image img draw) = Z.min (height img) (width img)
  /\ width (get_square_image img draw) = Z.min (height img) (width img).
Proof.
  intros Hh Hw Hd. unfold get_square_image.
  destruct (Z.eqb_spec (height img) (width img)) as [E|NE]; [lia|].
  destruct (Z.gtb_spec (height img) (width img)) as [G|G].
  - pose proof (crop_start_in_range ((height img - width img) / 2) draw) as Hr.
    set (top := py_int _) in *.
    assert (Hc : 1 <= (height img - width img) / 2)
      by (apply Z.div_le_lower_bound; lia).
    specialize (Hr Hc).
    assert (Hm : 2 * ((height img - width img) / 2) <= height img - width img)
      by (apply Z.mul_div_le; lia).
    unfold slice_rows, slice_bounds, slice_index.
    destruct (Z.ltb_spec top 0); [lia|].
    destruct (Z.ltb_spec (top + width img) 0); [lia|].
    simpl. lia.
  - pose proof (crop_start_in_range ((width img - height img) / 2) draw) as Hr.
    set (left := py_int _) in *.
    assert (Hc : 1 <= (width img - height img) / 2)
      by (apply Z.div_le_lower_bound; lia).
    specialize (Hr Hc).
    assert (Hm : 2 * ((width img - height img) / 2) <= width img - height img)
      by (apply Z.mul_div_le; lia).
    unfold slice_cols, slice_bounds, slice_index.
    destruct (Z.ltb_spec left 0); [lia|].
    destruct (Z.ltb_spec (left + height img) 0); [lia|].
    simpl. lia.
Qed.

(** C5, the code at the failing input: a 3x2 image and a normal draw of
    1.0 or more (so the clamped offset is 1); the crop start is -2, the
    slice [-2:0] of the rows is empty, and the result is 0x2, not 2x2.
    A draw of 0.5 gives the crop start -1 and an empty crop as well. *)
Theorem get_square_image_unit_slack (px : Z -> Z -> pixel) :
  py_int (inject_Z ((3 - 2) / 2) + clamp_offset 1 * inject_Z ((3 - 2) / 2 - 2)) = -2
  /\ height (get_square_image (mkImage 3 2 px) 1) = 0
  /\ width (get_square_image (mkImage 3 2 px) 1) = 2
  /\ height (get_square_image (mkImage 3 2 px) (3 # 2)) = 0
  /\ height (get_square_image (mkImage 3 2 px) (1 # 2)) = 0.
Proof. repeat split. Qed.

End Crop.
End MultiScaleDatasetProofs.

(** ** The vocoder network *)

Module VocoderProofs.
Import Vocoder.

(** *** The skip-channel stack *)

Lemma pop_snoc {A} (l : list A) (x : A) : pop (l ++ [x]) = Returned (x, l).
Proof.
  induction l as [|y l IH]; [reflexivity|].
  change ((y :: l) ++ [x]) with (y :: (l ++ [x])).
  destruct (l ++ [x]) as [|z t] eqn:E.
  - destruct l; discriminate.
  - change (pop (y :: z :: t)) with (let? r := pop (z :: t) in Returned (fst r, y :: snd r)).
    rewrite IH. reflexivity.
Qed.

Lemma pop_nonempty {A} (l : list A) :
  l <> [] -> exists x l', l = l' ++ [x] /\ pop l = Returned (x, l').
Proof.
  intros Hne. destruct (exists_last Hne) as (l' & x & ->).
  exists x, l'. split; [reflexivity|apply pop_snoc].
Qed.

Section Stack.
Variable hp : hparams.

Lemma res_steps_chans mult n b :
  length (input_block_chans (Nat.iter n (res_step hp mult) b))
  = (length (input_block_chans b) + n)%nat.
Proof.
  induction n as [|n IH]; simpl; [lia|].
  rewrite length_app, IH. simpl. lia.
Qed.

Lemma down_level_chans b lv :
  length (input_block_chans (down_level hp b lv))
  = (length (input_block_chans b) + pushes hp lv)%nat.
Proof.
  destruct lv as [level [mult n]]. unfold down_level, pushes, downsample_step. simpl.
  assert (Hs : input_block_chans (spec_cond_step hp b) = input_block_chans b).
  { unfold spec_cond_step. destruct (contains _ _); reflexivity. }
  destruct (negb _); simpl.
  - rewrite length_app, res_steps_chans, Hs. simpl. lia.
  - rewrite res_steps_chans, Hs. lia.
Qed.

Lemma down_levels_chans lvls : forall b,
  length (input_block_chans (fold_left (down_level hp) lvls b))
  = (length (input_block_chans b) + list_sum (map (pushes hp) lvls))%nat.
Proof.
  induction lvls as [|lv lvls IH]; intros b; simpl; [lia|].
  rewrite IH, down_level_chans. lia.
Qed.

Lemma up_steps_chans level mult num_blocks : forall (idxs : list nat) b,
  (length idxs <= length (input_block_chans b))%nat ->
  exists b',
    for_loop (up_step hp level mult num_blocks) b idxs = Returned b'
    /\ length (input_block_chans b) = (length (input_block_chans b') + length idxs)%nat
    /\ input_blocks b' = input_blocks b
    /\ spectrogram_blocks b' = spectrogram_blocks b.
Proof.
  induction idxs as [|i idxs IH]; intros b Hl.
  - exists b. simpl. auto with lia.
  - simpl in Hl.
    destruct (pop_nonempty (input_block_chans b)) as (x & l' & El & Ep).
    { intros E. rewrite E in Hl. simpl in Hl. lia. }
    simpl for_loop. unfold up_step at 1. rewrite Ep. simpl obind.
    match goal with |- context [for_loop _ ?b1 idxs] => destruct (IH b1) as (b' & E' & L' & I' & S') end.
    { simpl. rewrite El, length_app in Hl. simpl in Hl. lia. }
    exists b'. split; [exact E'|]. simpl in L', I', S'.
    rewrite El, length_app. simpl. repeat split; [lia|exact I'|exact S'].
Qed.

Lemma up_levels_chans : forall lvls b,
  (list_sum (map pops lvls) <= length (input_block_chans b))%nat ->
  exists b',
    for_loop (up_level hp) b lvls = Returned b'
    /\ length (input_block_chans b)
       = (length (input_block_chans b') + list_sum (map pops lvls))%nat
    /\ input_blocks b' = input_blocks b
    /\ spectrogram_blocks b' = spectrogram_blocks b.
Proof.
  induction lvls as [|[level [mult n]] lvls IH]; intros b Hl.
  - exists b. simpl. auto with lia.
  - simpl in Hl. unfold pops at 1 in Hl. simpl in Hl.
    destruct (up_steps_chans level mult n (seq 0 (n + 1)) b) as (b1 & E1 & L1 & I1 & S1).
    { rewrite length_seq. lia. }
    rewrite length_seq in L1.
    destruct (IH b1) as (b' & E' & L' & I' & S'); [lia|].
    exists b'. split.
    { simpl for_loop. unfold up_level at 1. rewrite E1. exact E'. }
    simpl. unfold pops at 1. simpl. repeat split; [lia|congruence|congruence].
Qed.

(** Counting over the enumerated levels. *)
Lemma pushes_count (zs : list (Q * nat)) : forall start,
  length (channel_mult hp) = (start + length zs)%nat ->
  zs <> [] ->
  (list_sum (map (pushes hp) (combine (seq start (length zs)) zs)) + 1
   = list_sum (map snd zs) + length zs)%nat.
Proof.
  induction zs as [|z zs IH]; intros start Hk Hne; [congruence|].
  simpl in Hk. simpl. unfold pushes at 1. simpl.
  destruct zs as [|z' zs].
  - simpl. replace (Z.of_nat start =? _) with true
      by (symmetry; apply Z.eqb_eq; simpl in Hk; lia).
    simpl. lia.
  - replace (Z.of_nat start =? _) with false
      by (symmetry; apply Z.eqb_neq; simpl in Hk; lia).
    specialize (IH (S start) ltac:(simpl in *; lia) ltac:(discriminate)).
    simpl in *. lia.
Qed.

Lemma pops_count (zs : list (Q * nat)) : forall start,
  list_sum (map pops (combine (seq start (length zs)) zs))
  = (list_sum (map snd zs) + length zs)%nat.
Proof.
  induction zs as [|z zs IH]; intros start; [reflexivity|].
  simpl. unfold pops at 1. simpl. rewrite IH. lia.
Qed.

Lemma list_sum_rev (l : list nat) : list_sum (rev l) = list_sum l.
Proof.
  induction l as [|x l IH]; [reflexivity|].
  simpl. rewrite list_sum_app, IH. simpl. lia.
Qed.

Lemma zipped_blocks (cm : list Q) : forall (nrb : list nat),
  length cm = length nrb ->
  map snd (combine cm nrb) = nrb /\ length (combine cm nrb) = length cm.
Proof.
  induction cm as [|c cm IH]; intros [|n nrb] Hl; try discriminate; [split; reflexivity|].
  simpl in Hl. destruct (IH nrb ltac:(lia)) as [E L]. simpl. rewrite E, L. auto.
Qed.

(** The stack after the down path, and the planner's run through the
    up path. *)
Lemma plan_blocks_stack :
  length (channel_mult hp) = length (num_res_blocks hp) ->
  channel_mult hp <> [] ->
  length (input_block_chans (down_path hp))
    = (1 + list_sum (num_res_blocks hp) + (length (channel_mult hp) - 1))%nat
  /\ list_sum (map pops (rev (levels hp)))
    = length (input_block_chans (down_path hp))
  /\ exists b,
       plan_blocks hp = Returned b
       /\ input_block_chans b = []
       /\ input_blocks b = input_blocks (down_path hp)
       /\ spectrogram_blocks b = spectrogram_blocks (down_path hp).
Proof.
  intros Hl Hne.
  destruct (zipped_blocks _ _ Hl) as [Hsnd Hlen].
  assert (Hk : (0 < length (channel_mult hp))%nat).
  { destruct (channel_mult hp); [congruence|simpl; lia]. }
  assert (Hz : combine (channel_mult hp) (num_res_blocks hp) <> []).
  { intros E. rewrite E in Hlen. simpl in Hlen. lia. }
  pose proof (pushes_count _ 0%nat ltac:(rewrite Hlen; reflexivity) Hz) as Hpush.
  pose proof (pops_count (combine (channel_mult hp) (num_res_blocks hp)) 0%nat) as Hpop.
  rewrite Hsnd in Hpush, Hpop.
  change (combine (seq 0 (length (combine (channel_mult hp) (num_res_blocks hp))))
                  (combine (channel_mult hp) (num_res_blocks hp)))
    with (levels hp) in Hpush, Hpop.
  assert (Hdown : length (input_block_chans (down_path hp))
                  = (1 + list_sum (map (pushes hp) (levels hp)))%nat).
  { unfold down_path. rewrite down_levels_chans. reflexivity. }
  assert (Hrev : list_sum (map pops (rev (levels hp)))
                 = length (input_block_chans (down_path hp))).
  { rewrite map_rev, list_sum_rev, Hpop, Hdown. lia. }
  split; [lia|]. split; [exact Hrev|].
  destruct (up_levels_chans (rev (levels hp)) (after_middle (down_path hp)))
    as (b & E & L & I & S).
  { simpl. rewrite Hrev. lia. }
  exists b. split; [exact E|]. simpl in L, I, S. rewrite Hrev in L.
  repeat split; [|exact I|exact S].
  destruct (input_block_chans b); [reflexivity|simpl in L; lia].
Qed.

(** With as many block counts as multipliers, and at least one level,
    the whole assembly returns. *)
Lemma assemble_returns :
  length (channel_mult hp) = length (num_res_blocks hp) ->
  channel_mult hp <> [] ->
  exists n, assemble hp = Returned n.
Proof.
  intros Hl Hne.
  destruct (plan_blocks_stack Hl Hne) as (_ & _ & b & E & _).
  unfold assemble. unfold plan_blocks in E. rewrite E. simpl obind.
  unfold leftover_num_blocks.
  destruct (levels hp) as [|[level [mult k]] lvls] eqn:El; [|simpl; eauto].
  exfalso. unfold levels, enumerate in El.
  destruct (zipped_blocks _ _ Hl) as [_ Hlen].
  destruct (combine (channel_mult hp) (num_res_blocks hp)); [|discriminate].
  destruct (channel_mult hp); [congruence|discriminate].
Qed.

End Stack.

(** C6: for channel_mult and num_res_blocks of the same length >= 1 and
    any resolution sets, the down path leaves 1 + sum(num_res_blocks) +
    (levels - 1) entries on input_block_chans, which is the number the up
    path pops (sum of num_res_blocks[L] + 1); no pop fails, and the stack
    is empty when the output_blocks loop is done. *)
Theorem skip_stack_balanced (hp : hparams) :
  length (channel_mult hp) = length (num_res_blocks hp) ->
  (1 <= length (channel_mult hp))%nat ->
  length (input_block_chans (down_path hp))
    = (1 + list_sum (num_res_blocks hp) + (length (channel_mult hp) - 1))%nat
  /\ length (input_block_chans (down_path hp))
    = list_sum (map (fun n => n + 1)%nat (num_res_blocks hp))
  /\ exists b, plan_blocks hp = Returned b /\ input_block_chans b = [].
Proof.
  intros Hl Hk.
  assert (Hne : channel_mult hp <> []) by (destruct (channel_mult hp); [simpl in Hk; lia|discriminate]).
  destruct (plan_blocks_stack hp Hl Hne) as (Hd & _ & b & E & Hb & _).
  split; [exact Hd|]. split; [|exists b; auto].
  assert (Hsum : forall l : list nat,
             list_sum (map (fun n => n + 1)%nat l) = (list_sum l + length l)%nat).
  { induction l as [|n l IH]; [reflexivity|]. simpl. rewrite IH. lia. }
  rewrite Hd, Hsum. lia.
Qed.


Lemma skip_stack_balanced_witness :
  length (input_block_chans (down_path (Fixture.script_hparams false)))
    = (1 + list_sum (num_res_blocks (Fixture.script_hparams false))
       + (length (channel_mult (Fixture.script_hparams false)) - 1))%nat
  /\ length (input_block_chans (down_path (Fixture.script_hparams false)))
    = list_sum (map (fun n => n + 1)%nat (num_res_blocks (Fixture.script_hparams false)))
  /\ exists b, plan_blocks (Fixture.script_hparams false) = Returned b
               /\ input_block_chans b = [].
Proof.
  apply (skip_stack_balanced (Fixture.script_hparams false)); [reflexivity | simpl; lia].
Defined.

(** *** The forward pass *)

Section ForwardProofs.
Context {tensor : Type}.
Variable last_dim : tensor -> nat.
Variable evaluate :
  model -> tensor -> tensor -> tensor -> option tensor -> Z -> Z -> tensor.

Local Abbreviation fwd := (forward last_dim evaluate).

Lemma randint_range (a b entropy : Z) :
  a <= b -> a <= randint a b entropy <= b.
Proof.
  intros H. unfold randint.
  pose proof (Z.mod_pos_bound entropy (b - a + 1) ltac:(lia)). lia.
Qed.

Lemma entry_checks_spec (self : model) (x : tensor) (c : option tensor) :
  (entry_checks last_dim self x c = Raised AssertionError
   <-> (Z.of_nat (last_dim x) mod 4096 <> 0
        \/ (conditioning_enabled self = true /\ c = None)))
  /\ (entry_checks last_dim self x c = Returned tt
      <-> (Z.of_nat (last_dim x) mod 4096 = 0
           /\ (conditioning_enabled self = true -> c <> None))).
Proof.
  unfold entry_checks.
  destruct (Z.eqb_spec (Z.of_nat (last_dim x) mod 4096) 0) as [E|E];
    destruct (conditioning_enabled self); destruct c; simpl;
    repeat split; intros; try tauto; try congruence; try discriminate;
    intuition congruence.
Qed.

(** C7: for every input that passes the entry checks, [forward] returns
    the output together with (rand_start, rand_stop); in evaluation mode
    these are 0 and N; in training mode rand_start is even and lies in
    [0, N/2], and rand_stop - rand_start = N/2, half of N exactly. *)
Theorem forward_bounds (self : model) (training : bool)
    (x timesteps spectrogram : tensor) (conditioning_input : option tensor)
    (entropy : Z) :
  entry_checks last_dim self x conditioning_input = Returned tt ->
  exists out rand_start rand_stop,
    fwd self training x timesteps spectrogram conditioning_input entropy
      = Returned (out, rand_start, rand_stop)
    /\ out = evaluate self x timesteps spectrogram conditioning_input
                      rand_start rand_stop
    /\ (training = false ->
        rand_start = 0 /\ rand_stop = Z.of_nat (last_dim x))
    /\ (training = true ->
        Z.even rand_start = true
        /\ 0 <= rand_start <= Z.of_nat (last_dim x) / 2
        /\ rand_stop - rand_start = Z.of_nat (last_dim x) / 2
        /\ 2 * (rand_stop - rand_start) = Z.of_nat (last_dim x)).
Proof.
  intros Hc. unfold forward. rewrite Hc. simpl obind.
  eexists _, _, _. split; [reflexivity|]. split; [reflexivity|].
  apply entry_checks_spec in Hc as [Hm _].
  unfold truncation_bounds.
  set (n := Z.of_nat (last_dim x)) in *.
  assert (Hn : 0 <= n / 2) by (apply Z.div_pos; lia).
  pose proof (randint_range 0 (n / 2) entropy Hn) as Hr.
  set (r := randint 0 (n / 2) entropy) in *.
  split; intros ->; cbn [fst snd].
  - auto.
  - assert (Hhalf : 2 * (n / 2) = n).
    { assert (Hq : n = 4096 * (n / 4096)) by (apply Z.div_exact; lia).
      rewrite Hq at 1 2.
      replace (4096 * (n / 4096)) with (2048 * (n / 4096) * 2) by lia.
      rewrite Z.div_mul by lia. lia. }
    pose proof (Z.mul_div_le r 2 ltac:(lia)) as Hle.
    assert (Hpos : 0 <= r / 2) by (apply Z.div_pos; lia).
    repeat split.
    + rewrite Z.even_mul. apply orb_true_r.
    + lia.
    + lia.
    + lia.
    + lia.
Qed.

(** C8: [forward] ends in the AssertionError of its entry checks exactly
    when the last dimension of the input is not a multiple of 4096, or
    conditioning is enabled and no conditioning tensor is given; this
    holds whatever the rest of the pass computes.  When both
    preconditions hold the checks pass and [forward] returns. *)
Theorem forward_entry_failure (self : model) (training : bool)
    (x timesteps spectrogram : tensor) (conditioning_input : option tensor)
    (entropy : Z) :
  (fwd self training x timesteps spectrogram conditioning_input entropy
     = Raised AssertionError
   <-> (Z.of_nat (last_dim x) mod 4096 <> 0
        \/ (conditioning_enabled self = true /\ conditioning_input = None)))
  /\ (fwd self training x timesteps spectrogram conditioning_input entropy
        = Raised AssertionError
      <-> entry_checks last_dim self x conditioning_input = Raised AssertionError)
  /\ ((Z.of_nat (last_dim x) mod 4096 = 0
       /\ (conditioning_enabled self = true -> conditioning_input <> None))
      <-> entry_checks last_dim self x conditioning_input = Returned tt)
  /\ (entry_checks last_dim self x conditioning_input = Returned tt ->
      exists r, fwd self training x timesteps spectrogram conditioning_input entropy
                = Returned r).
Proof.
  destruct (entry_checks_spec self x conditioning_input) as [Hf Hs].
  assert (Hfwd : fwd self training x timesteps spectrogram conditioning_input entropy
                   = Raised AssertionError
                 <-> entry_checks last_dim self x conditioning_input
                   = Raised AssertionError).
  { unfold forward.
    destruct (entry_checks last_dim self x conditioning_input) as [[]|e]; simpl.
    - split; discriminate.
    - split; intros H; injection H as ->; reflexivity. }
  split; [rewrite Hfwd; exact Hf|]. split; [exact Hfwd|]. split; [symmetry; exact Hs|].
  intros E. unfold forward. rewrite E. simpl. eauto.
Qed.

End ForwardProofs.

Lemma forward_bounds_witness :
  exists out rand_start rand_stop,
    forward Fixture.length_of Fixture.echo Fixture.script_model true
            40960 0 0 (Some 0) 12345
      = Returned (out, rand_start, rand_stop)
    /\ out = Fixture.echo Fixture.script_model 40960 0 0 (Some 0) rand_start rand_stop
    /\ (true = false ->
        rand_start = 0 /\ rand_stop = Z.of_nat (Fixture.length_of 40960))
    /\ (true = true ->
        Z.even rand_start = true
        /\ 0 <= rand_start <= Z.of_nat (Fixture.length_of 40960) / 2
        /\ rand_stop - rand_start = Z.of_nat (Fixture.length_of 40960) / 2
        /\ 2 * (rand_stop - rand_start) = Z.of_nat (Fixture.length_of 40960)).
Proof.
  apply (forward_bounds Fixture.length_of Fixture.echo Fixture.script_model true
           40960 0 0 (Some 0) 12345).
  vm_compute. reflexivity.
Defined.

(** *** The parameters left trainable *)

Lemma in_enumerate_from {A} (ms : list A) : forall start i m,
  In (i, m) (combine (seq start (length ms)) ms)
  <-> (start <= i)%nat /\ ms !! (i - start)%nat = Some m.
Proof.
  induction ms as [|x ms IH]; intros start i m; simpl.
  - split; [tauto|]. intros [_ H]. discriminate.
  - rewrite IH. split.
    + intros [E|[Hle Hl]].
      * injection E as <- <-. split; [lia|]. rewrite Nat.sub_diag. reflexivity.
      * split; [lia|]. replace (i - start)%nat with (S (i - S start)) by lia. exact Hl.
    + intros [Hle Hl]. destruct (i - start)%nat as [|k] eqn:E.
      * left. simpl in Hl. injection Hl as <-. f_equal. lia.
      * right. split; [lia|]. simpl in Hl. replace (i - S start)%nat with k by lia. exact Hl.
Qed.

Lemma in_enumerate {A} (ms : list A) i m :
  In (i, m) (enumerate ms) <-> ms !! i = Some m.
Proof.
  unfold enumerate. rewrite in_enumerate_from, Nat.sub_0_r. intuition lia.
Qed.

Lemma enumerate_from_snoc {A} (ms : list A) (m : A) : forall start,
  combine (seq start (length (ms ++ [m]))) (ms ++ [m])
  = combine (seq start (length ms)) ms ++ [((start + length ms)%nat, m)].
Proof.
  induction ms as [|x ms IH]; intros start; simpl.
  - rewrite Nat.add_0_r. reflexivity.
  - rewrite IH. replace (S start + length ms)%nat with (start + S (length ms))%nat by lia.
    reflexivity.
Qed.

Lemma spec_positions_snoc ms m :
  spec_positions (ms ++ [m])
  = spec_positions ms ++ (if is_spectrogram_block m then [length ms] else []).
Proof.
  unfold spec_positions, enumerate. rewrite enumerate_from_snoc.
  rewrite List.filter_app, map_app. simpl.
  destruct (is_spectrogram_block m); reflexivity.
Qed.

Lemma in_spec_positions ms i :
  In i (spec_positions ms)
  <-> exists m, ms !! i = Some m /\ is_spectrogram_block m = true.
Proof.
  unfold spec_positions. rewrite in_map_iff. split.
  - intros ([j m] & <- & H). apply filter_In in H as [H1 H2].
    apply in_enumerate in H1. eauto.
  - intros (m & H1 & H2). exists (i, m). split; [reflexivity|].
    apply filter_In. split; [apply in_enumerate; exact H1|exact H2].
Qed.

Lemma NoDup_positions_from {A} (f : nat * A -> bool) (ms : list A) : forall start,
  List.NoDup (map fst (List.filter f (combine (seq start (length ms)) ms))).
Proof.
  induction ms as [|x ms IH]; intros start; simpl; [constructor|].
  destruct (f (start, x)); [|apply IH].
  simpl. constructor; [|apply IH].
  intros H. apply in_map_iff in H as ([j m] & E & H). simpl in E. subst j.
  apply filter_In in H as [H _]. apply in_enumerate_from in H. lia.
Qed.

Lemma NoDup_spec_positions ms : List.NoDup (spec_positions ms).
Proof. apply NoDup_positions_from. Qed.

Section Refs.
Variable hp : hparams.

Lemma refs_ok_init : refs_ok (init_builder hp).
Proof. reflexivity. Qed.

Lemma refs_ok_spec_cond b : refs_ok b -> refs_ok (spec_cond_step hp b).
Proof.
  unfold refs_ok, spec_cond_step. intros H.
  destruct (contains _ _); [|exact H]. simpl.
  rewrite spec_positions_snoc, H. reflexivity.
Qed.

Lemma refs_ok_res_steps mult n b :
  refs_ok b -> refs_ok (Nat.iter n (res_step hp mult) b).
Proof.
  intros H. induction n as [|n IH]; [exact H|]. simpl.
  unfold refs_ok in *. simpl. rewrite spec_positions_snoc, IH. simpl.
  symmetry. apply app_nil_r.
Qed.

Lemma refs_ok_downsample level b : refs_ok b -> refs_ok (downsample_step hp level b).
Proof.
  unfold refs_ok, downsample_step. intros H.
  destruct (negb _); [|exact H]. simpl.
  rewrite spec_positions_snoc, H. simpl. symmetry. apply app_nil_r.
Qed.

Lemma refs_ok_down_levels lvls : forall b,
  refs_ok b -> refs_ok (fold_left (down_level hp) lvls b).
Proof.
  induction lvls as [|[level [mult n]] lvls IH]; intros b H; [exact H|].
  simpl. apply IH. apply refs_ok_downsample, refs_ok_res_steps, refs_ok_spec_cond, H.
Qed.

Lemma refs_ok_down_path : refs_ok (down_path hp).
Proof. apply refs_ok_down_levels, refs_ok_init. Qed.

Lemma up_steps_keep level mult num_blocks : forall (idxs : list nat) b b',
  for_loop (up_step hp level mult num_blocks) b idxs = Returned b' ->
  input_blocks b' = input_blocks b /\ spectrogram_blocks b' = spectrogram_blocks b.
Proof.
  induction idxs as [|i idxs IH]; intros b b' E; simpl in E.
  - injection E as <-. auto.
  - unfold up_step at 1 in E.
    destruct (pop (input_block_chans b)) as [[x l]|e]; [|discriminate].
    simpl in E. apply IH in E. simpl in E. exact E.
Qed.

Lemma up_levels_keep : forall lvls b b',
  for_loop (up_level hp) b lvls = Returned b' ->
  input_blocks b' = input_blocks b /\ spectrogram_blocks b' = spectrogram_blocks b.
Proof.
  induction lvls as [|[level [mult n]] lvls IH]; intros b b' E; simpl in E.
  - injection E as <-. auto.
  - unfold up_level at 1 in E.
    destruct (for_loop (up_step hp level mult n) b (seq 0 (n + 1))) as [b1|e] eqn:E1;
      [|discriminate].
    simpl in E. apply IH in E as [I S]. apply up_steps_keep in E1 as [I1 S1].
    split; congruence.
Qed.

Lemma assemble_refs n :
  assemble hp = Returned n ->
  net_spectrogram_blocks n = spec_positions (net_input_blocks n).
Proof.
  unfold assemble. intros E.
  destruct (up_path hp (after_middle (down_path hp))) as [up|e] eqn:Eup; [|discriminate].
  simpl in E. destruct (leftover_num_blocks hp) as [k|e]; [|discriminate].
  simpl in E. injection E as <-. simpl.
  apply up_levels_keep in Eup as [I S]. simpl in I, S.
  rewrite I, S. apply refs_ok_down_path.
Qed.

End Refs.

Lemma for_loop_app {A S} (f : S -> A -> outcome S) (l1 l2 : list A) : forall s,
  for_loop f s (l1 ++ l2) = let? s' := for_loop f s l1 in for_loop f s' l2.
Proof.
  induction l1 as [|x l1 IH]; intros s; simpl; [reflexivity|].
  destruct (f s x) as [s'|e]; simpl; [apply IH|reflexivity].
Qed.

Lemma for_loop_nested {A B S} (f : S -> B -> outcome S) (g : A -> list B) (l : list A) :
  forall s,
  for_loop (fun s x => for_loop f s (g x)) s l = for_loop f s (flat_map g l).
Proof.
  induction l as [|x l IH]; intros s; simpl; [reflexivity|].
  rewrite for_loop_app. destruct (for_loop f s (g x)); simpl; [apply IH|reflexivity].
Qed.

Lemma NoDup_flat_map {A B} (g : A -> list B) (l : list A) :
  List.NoDup l ->
  (forall x, List.NoDup (g x)) ->
  (forall x y z, In z (g x) -> In z (g y) -> x = y) ->
  List.NoDup (flat_map g l).
Proof.
  intros Hl Hg Hd. induction Hl as [|x l Hx Hl IH]; simpl; [constructor|].
  apply List.NoDup_app; [apply Hg|exact IH|].
  intros z Hz Hz'. apply in_flat_map in Hz' as (y & Hy & Hzy).
  rewrite (Hd _ _ _ Hz Hzy) in Hx. contradiction.
Qed.

Section Store.
Variable param_count : module_ -> nat.

Lemma freeze_at (s : store) (p q : param) :
  freeze s p q = if decide (q = p) then frozen else s q.
Proof.
  unfold freeze, update. destruct (decide (q = p)) as [->|Hne]; [|reflexivity].
  destruct (decide (p = p)); [reflexivity|congruence].
Qed.

Lemma freeze_all (l : list param) : forall (s : store) (p : param),
  (In p l -> fold_left freeze l s p = frozen)
  /\ (~ In p l -> fold_left freeze l s p = s p).
Proof.
  induction l as [|q l IH]; intros s p; simpl.
  - tauto.
  - destruct (IH (freeze s q) p) as [Hin Hout]. split.
    + intros [->|H]; [|auto].
      destruct (in_dec (decide_rel eq) p l) as [H|H]; [auto|].
      rewrite Hout by exact H. rewrite freeze_at.
      destruct (decide (p = p)); [reflexivity|congruence].
    + intros H. rewrite Hout by tauto. rewrite freeze_at.
      destruct (decide (p = q)) as [->|_]; [tauto|reflexivity].
Qed.

Lemma unfreeze_all (l : list param) : forall (s : store),
  List.NoDup l ->
  (forall q, In q l -> DO_NOT_TRAIN (s q) <> None) ->
  exists s',
    for_loop unfreeze s l = Returned s'
    /\ (forall q, In q l -> s' q = trainable)
    /\ (forall p, ~ In p l -> s' p = s p).
Proof.
  induction l as [|q l IH]; intros s Hnd Hset.
  - exists s. simpl. repeat split; tauto.
  - apply List.NoDup_cons_iff in Hnd as [Hq Hnd].
    simpl for_loop. unfold unfreeze at 1.
    destruct (DO_NOT_TRAIN (s q)) as [v|] eqn:E; [|exfalso; apply (Hset q); [by left|exact E]].
    simpl obind.
    match goal with |- context [for_loop unfreeze ?s1 l] =>
      assert (H1 : forall p, s1 p = if decide (p = q) then trainable else s p);
      [|destruct (IH s1 Hnd) as (s' & E' & Hin & Hout)] end.
    { intros p. unfold update. destruct (decide (p = q)) as [->|]; [|reflexivity].
      destruct (decide (q = q)); [reflexivity|congruence]. }
    { intros p Hp. rewrite H1. destruct (decide (p = q)) as [->|]; [contradiction|].
      apply Hset. by right. }
    exists s'. split; [exact E'|]. split.
    + intros p [<-|Hp]; [|auto]. rewrite Hout by exact Hq. rewrite H1.
      destruct (decide (q = q)); [reflexivity|congruence].
    + intros p Hp. simpl in Hp. rewrite Hout by tauto. rewrite H1.
      destruct (decide (p = q)) as [->|]; [tauto|reflexivity].
Qed.

Lemma in_module_parameters path m p :
  In p (module_parameters param_count path m)
  <-> fst p = path /\ (snd p < param_count m)%nat.
Proof.
  unfold module_parameters. rewrite in_map_iff. split.
  - intros (k & <- & Hk). apply in_seq in Hk. simpl. split; [reflexivity|lia].
  - intros [<- Hk]. exists (snd p). split; [destruct p; reflexivity|apply in_seq; lia].
Qed.

Lemma in_list_parameters field ms p :
  In p (list_parameters param_count field ms)
  <-> exists i m, ms !! i = Some m /\ fst p = field i /\ (snd p < param_count m)%nat.
Proof.
  unfold list_parameters. rewrite in_flat_map. split.
  - intros ([i m] & H & Hp). apply in_enumerate in H.
    apply in_module_parameters in Hp. simpl in Hp. eauto.
  - intros (i & m & H & Hp). exists (i, m). split; [apply in_enumerate; exact H|].
    apply in_module_parameters. exact Hp.
Qed.

Lemma NoDup_module_parameters path m :
  List.NoDup (module_parameters param_count path m).
Proof.
  unfold module_parameters.
  pose proof (List.seq_NoDup (param_count m) 0) as Hnd.
  induction Hnd as [|k l Hk Hnd IH]; simpl; constructor; [|exact IH].
  intros H. apply in_map_iff in H as (k' & E & H). congruence.
Qed.

Lemma in_block_parameters n sb p :
  In p (block_parameters param_count n sb)
  <-> exists m, net_input_blocks n !! sb = Some m
                /\ fst p = P_input_blocks sb /\ (snd p < param_count m)%nat.
Proof.
  unfold block_parameters. destruct (net_input_blocks n !! sb) as [m|] eqn:E.
  - rewrite in_module_parameters. split; [eauto|]. intros (m' & Hm & H). congruence.
  - split; [contradiction|]. intros (m' & Hm & _). discriminate.
Qed.

Lemma in_connection_params n p :
  net_spectrogram_blocks n = spec_positions (net_input_blocks n) ->
  (In p (connection_params param_count n)
   <-> In p (list_parameters param_count P_input_blocks (net_input_blocks n))
       /\ is_connection_param n p = true).
Proof.
  intros Hrefs. unfold connection_params. rewrite in_flat_map, in_list_parameters. split.
  - intros (sb & Hsb & Hp). rewrite Hrefs in Hsb.
    apply in_spec_positions in Hsb as (m & Hm & Hs).
    apply in_block_parameters in Hp as (m' & Hm' & Hf & Hk).
    split; [eauto|]. unfold is_connection_param. rewrite Hf, Hm. exact Hs.
  - intros [(i & m & Hm & Hf & Hk) Hc]. unfold is_connection_param in Hc.
    rewrite Hf, Hm in Hc. exists i. split.
    + rewrite Hrefs. apply in_spec_positions. eauto.
    + apply in_block_parameters. eauto.
Qed.

Lemma NoDup_connection_params n :
  net_spectrogram_blocks n = spec_positions (net_input_blocks n) ->
  List.NoDup (connection_params param_count n).
Proof.
  intros Hrefs. unfold connection_params. apply NoDup_flat_map.
  - rewrite Hrefs. apply NoDup_spec_positions.
  - intros sb. unfold block_parameters.
    destruct (net_input_blocks n !! sb); [apply NoDup_module_parameters|constructor].
  - intros x y z Hx Hy.
    apply in_block_parameters in Hx as (_ & _ & Hx & _).
    apply in_block_parameters in Hy as (_ & _ & Hy & _). congruence.
Qed.

Lemma input_parameters_registered n p :
  In p (list_parameters param_count P_input_blocks (net_input_blocks n)) ->
  In p (parameters param_count n).
Proof. intros H. unfold parameters. rewrite !in_app_iff. tauto. Qed.

Lemma connection_param_registered n p :
  In p (parameters param_count n) ->
  is_connection_param n p = true ->
  In p (list_parameters param_count P_input_blocks (net_input_blocks n)).
Proof.
  intros H Hc. unfold is_connection_param in Hc.
  destruct (fst p) as [| | |i| | | | | | |] eqn:Hf; try discriminate.
  unfold parameters in H. rewrite !in_app_iff in H.
  destruct (contextual_embedder n);
    repeat match type of H with
           | _ \/ _ => destruct H as [H|H]
           end;
    try (apply in_module_parameters in H as [H _]; congruence);
    try (apply in_list_parameters in H; destruct H as (? & ? & _ & H & _); congruence);
    try contradiction; exact H.
Qed.

(** The guarded block never raises on an assembled network, and leaves
    exactly the connection parameters trainable. *)
Lemma train_only_connection_layers_spec n :
  net_spectrogram_blocks n = spec_positions (net_input_blocks n) ->
  exists s,
    train_only_connection_layers param_count n (fun _ => fresh_attrs) = Returned s
    /\ forall p, In p (parameters param_count n) ->
         s p = if is_connection_param n p then trainable else frozen.
Proof.
  intros Hrefs. unfold train_only_connection_layers.
  rewrite for_loop_nested. fold (connection_params param_count n).
  set (s1 := fold_left freeze (parameters param_count n) (fun _ => fresh_attrs)).
  destruct (unfreeze_all (connection_params param_count n) s1 (NoDup_connection_params n Hrefs))
    as (s & E & Hin & Hout).
  { intros q Hq. apply (in_connection_params n q Hrefs) in Hq as [Hq _].
    apply input_parameters_registered in Hq.
    unfold s1. rewrite (proj1 (freeze_all _ _ q) Hq). discriminate. }
  exists s. split; [exact E|]. intros p Hp.
  destruct (is_connection_param n p) eqn:Hc.
  - apply Hin. apply in_connection_params; [exact Hrefs|].
    split; [apply connection_param_registered; assumption|exact Hc].
  - rewrite Hout.
    + unfold s1. apply (proj1 (freeze_all _ _ p) Hp).
    + intros H. apply (in_connection_params n p Hrefs) in H as [_ H]. congruence.
Qed.

Lemma assemble_ignores_flag hp flag :
  assemble (with_only_train hp flag) = assemble hp.
Proof. reflexivity. Qed.

(** C9: when construction reaches the guarded block with
    only_train_dvae_connection_layers = True, it completes, and every
    parameter of the network then has requires_grad = False and
    DO_NOT_TRAIN = True, except the parameters of the
    DiscreteSpectrogramConditioningBlock instances of input_blocks, which
    have requires_grad = True and no DO_NOT_TRAIN attribute; the modules
    and conditioning_enabled are those of the same construction with the
    flag off, which leaves every parameter as created. *)
Theorem only_train_connection_layers (hp : hparams) (n : network) :
  only_train_dvae_connection_layers hp = true ->
  assemble hp = Returned n ->
  exists m,
    __init__ param_count hp = Returned m
    /\ net m = n
    /\ (forall p, In p (parameters param_count n) ->
          if is_connection_param n p
          then requires_grad (attrs_of m p) = true /\ DO_NOT_TRAIN (attrs_of m p) = None
          else requires_grad (attrs_of m p) = false
               /\ DO_NOT_TRAIN (attrs_of m p) = Some true)
    /\ exists m0,
         __init__ param_count (with_only_train hp false) = Returned m0
         /\ net m0 = net m
         /\ conditioning_enabled m0 = conditioning_enabled m
         /\ forall p, attrs_of m0 p = fresh_attrs.
Proof.
  intros Hflag Hn.
  destruct (train_only_connection_layers_spec n (assemble_refs hp n Hn)) as (s & E & Hs).
  exists (mkModel n s (conditioning_inputs_provided hp)). split; [|split; [reflexivity|split]].
  - unfold __init__. rewrite Hn, Hflag. simpl obind. rewrite E. reflexivity.
  - intros p Hp. simpl attrs_of. rewrite (Hs p Hp).
    destruct (is_connection_param n p); split; reflexivity.
  - exists (mkModel n (fun _ => fresh_attrs) (conditioning_inputs_provided hp)).
    split; [|repeat split].
    unfold __init__. rewrite assemble_ignores_flag, Hn. reflexivity.
Qed.

End Store.

Lemma only_train_connection_layers_witness :
  exists m,
    __init__ Fixture.two_params (Fixture.script_hparams true) = Returned m
    /\ net m = Fixture.script_network
    /\ (forall p, In p (parameters Fixture.two_params Fixture.script_network) ->
          if is_connection_param Fixture.script_network p
          then requires_grad (attrs_of m p) = true /\ DO_NOT_TRAIN (attrs_of m p) = None
          else requires_grad (attrs_of m p) = false
               /\ DO_NOT_TRAIN (attrs_of m p) = Some true)
    /\ exists m0,
         __init__ Fixture.two_params (with_only_train (Fixture.script_hparams true) false)
           = Returned m0
         /\ net m0 = net m
         /\ conditioning_enabled m0 = conditioning_enabled m
         /\ forall p, attrs_of m0 p = fresh_attrs.
Proof.
  apply (only_train_connection_layers Fixture.two_params (Fixture.script_hparams true)
           Fixture.script_network); [reflexivity | vm_compute; reflexivity].
Defined.

End VocoderProofs.

(** ** The tile tree: numbering and links *)

Module TileTreeMore.
Import TileTree. Import TileTreeProofs.
Import MultiScaleDataset.

Lemma numbered_trans a b c w1 w2 w3 :
  numbered a w1 w2 b -> numbered b w2 w3 c -> numbered a w1 w3 c.
Proof.
  intros (t1 & L1 & E1 & N1) (t2 & L2 & E2 & N2).
  exists (t1 ++ t2). split; [rewrite L2, L1; symmetry; apply app_assoc|]. split.
  - rewrite length_app. lia.
  - intros j e Hj. destruct (decide (j < length t1)%nat) as [Hlt|Hge].
    + rewrite lookup_app_l in Hj by exact Hlt. auto.
    + rewrite lookup_app_r in Hj by lia. apply N2 in Hj. lia.
Qed.

Lemma spawn_numbered ind node w w' :
  links (nodes w') = links (nodes w) ++
    [(ind + 0, Some node); (ind + 1, Some node); (ind + 2, Some node); (ind + 3, Some node)] ->
  numbered ind w w' (ind + 4).
Proof.
  intros K. eexists. split; [exact K|]. split; [reflexivity|].
  intros [|[|[|[|j]]]] e Hj; simpl in Hj; try discriminate; injection Hj as <-; simpl; lia.
Qed.

Lemma for_each_numbered fuel depth :
  (forall ind node w ind' w',
     _build_multiscale_patch_index_map fuel depth ind node w = Returned (ind', w') ->
     numbered ind w w' ind') ->
  forall cs ind w ind' w',
    for_each (fun ind n => _build_multiscale_patch_index_map fuel depth ind n) ind cs w
      = Returned (ind', w') ->
    numbered ind w w' ind'.
Proof.
  intros IH. induction cs as [|c cs IHcs]; intros ind w ind' w' E.
  - injection E as <- <-. exists []. rewrite app_nil_r. split; [reflexivity|].
    split; [simpl; lia|]. intros j e Hj. discriminate.
  - simpl in E. unfold bind at 1 in E.
    destruct (_build_multiscale_patch_index_map fuel depth ind c w) as [[ind1 w1]|e] eqn:E1;
      [|discriminate].
    eapply numbered_trans; [apply (IH _ _ _ _ _ E1)|apply (IHcs _ _ _ _ E)].
Qed.

Lemma build_numbered : forall fuel depth ind node w ind' w',
  _build_multiscale_patch_index_map fuel depth ind node w = Returned (ind', w') ->
  numbered ind w w' ind'.
Proof.
  induction fuel as [|fuel IH]; intros depth ind node w ind' w' E; [discriminate|].
  rewrite build_unfold in E. unfold bind at 1 in E.
  destruct (spawn_children ind node w) as (w1 & E1 & K1 & L1). rewrite E1 in E.
  pose proof (spawn_numbered _ _ _ _ K1) as N1.
  destruct (depth =? 1).
  - unfold bind, leaves_extend, ret in E. injection E as <- <-.
    destruct N1 as (t & Lt & Et & Nt). exists t. auto.
  - eapply numbered_trans; [exact N1|].
    eapply for_each_numbered; [|exact E]. apply IH.
Qed.

Lemma for_each_count fuel depth step :
  (forall ind node w ind' w',
     _build_multiscale_patch_index_map fuel depth ind node w = Returned (ind', w') ->
     ind' = ind + step) ->
  forall cs ind w ind' w',
    for_each (fun ind n => _build_multiscale_patch_index_map fuel depth ind n) ind cs w
      = Returned (ind', w') ->
    ind' = ind + Z.of_nat (length cs) * step.
Proof.
  intros IH. induction cs as [|c cs IHcs]; intros ind w ind' w' E.
  - injection E as <- <-. simpl. lia.
  - simpl in E. unfold bind at 1 in E.
    destruct (_build_multiscale_patch_index_map fuel depth ind c w) as [[ind1 w1]|e] eqn:E1;
      [|discriminate].
    apply IH in E1. apply IHcs in E. simpl length. lia.
Qed.

(** The counter advances by the number of nodes created below [node]. *)
Lemma build_count : forall k fuel ind node w ind' w',
  _build_multiscale_patch_index_map fuel (Z.of_nat (S k)) ind node w = Returned (ind', w') ->
  ind' = ind + 4 * geometric_sum (S k).
Proof.
  induction k as [|k IHk]; intros [|fuel] ind node w ind' w' E; try discriminate;
    rewrite build_unfold in E; unfold bind at 1 in E;
    destruct (spawn_children ind node w) as (w1 & E1 & _); rewrite E1 in E.
  - change (Z.of_nat 1 =? 1) with true in E. cbv iota in E.
    unfold bind, leaves_extend, ret in E. injection E as <- <-. reflexivity.
  - replace (Z.of_nat (S (S k)) =? 1) with false in E by (symmetry; apply Z.eqb_neq; lia).
    replace (Z.of_nat (S (S k)) - 1) with (Z.of_nat (S k)) in E by lia.
    apply (for_each_count fuel _ (4 * geometric_sum (S k))) in E; [|apply IHk].
    rewrite (MultiScaleDatasetProofs.geometric_sum_step (S k)). simpl length in E. lia.
Qed.

Lemma build_inversion fuel depth lv w :
  build_multiscale_patch_index_map fuel depth = Returned (Some lv, w) ->
  0 <= depth
  /\ lv = leaves w
  /\ exists ind',
       _build_multiscale_patch_index_map fuel (depth - 1) 1 0%nat
         (mkWorld [mkNode 0 None []] []) = Returned (ind', w).
Proof.
  unfold build_multiscale_patch_index_map.
  destruct (Z.ltb_spec depth 0) as [Hd|Hd]; [discriminate|].
  unfold bind at 1. unfold new_node at 1. cbv beta iota.
  unfold bind at 1. simpl nodes. simpl leaves. simpl length.
  change ([] ++ [mkNode 0 None []]) with [mkNode 0 None []].
  destruct (_build_multiscale_patch_index_map fuel (depth - 1) 1 0%nat
              (mkWorld [mkNode 0 None []] [])) as [[ind' w']|e]; [|discriminate].
  intros E. injection E as <- <-. eauto.
Qed.

(** Nodes are numbered in the order in which they are created. *)
Lemma build_numbering (depth : Z) (fuel : nat) :
  2 <= depth -> (Z.to_nat (depth - 1) <= fuel)%nat ->
  exists lv w,
    build_multiscale_patch_index_map fuel depth = Returned (Some lv, w)
    /\ Z.of_nat (length (nodes w)) = geometric_sum (Z.to_nat depth)
    /\ forall a n, nodes w !! a = Some n -> index n = Z.of_nat a.
Proof.
  intros Hd Hf.
  destruct (build_succeeds fuel depth Hd Hf) as (lv & w & E & _ & _).
  exists lv, w. split; [exact E|].
  apply build_inversion in E as (_ & _ & ind' & E).
  pose proof (build_numbered _ _ _ _ _ _ _ E) as (t & Lt & Et & Nt).
  replace (depth - 1) with (Z.of_nat (S (Z.to_nat (depth - 2)))) in E by lia.
  apply build_count in E. simpl in Lt.
  assert (Hlen : length (nodes w) = S (length t)).
  { rewrite <- links_length, Lt. reflexivity. }
  split.
  - rewrite Hlen. replace (Z.to_nat depth) with (S (S (Z.to_nat (depth - 2)))) by lia.
    rewrite (MultiScaleDatasetProofs.geometric_sum_step (S _)). lia.
  - intros a n Hn.
    assert (Hl : links (nodes w) !! a = Some (index n, parent n)).
    { rewrite links_lookup, Hn. reflexivity. }
    rewrite Lt in Hl. destruct a as [|a]; simpl in Hl.
    + injection Hl as <- _. reflexivity.
    + apply Nt in Hl. simpl in Hl. lia.
Qed.

(** X1: for every depth >= 2 (and a recursion limit of at least depth - 1
    frames) [build_multiscale_patch_index_map] creates
    1 + 4 + ... + 4^(depth-1) nodes, and the node created in place [a]
    (the root is place 0) carries index [a]: the indices are
    0, 1, 2, ... without a gap or a repeat. *)
Theorem build_indices_consecutive (depth : Z) (fuel : nat) :
  2 <= depth -> (Z.to_nat (depth - 1) <= fuel)%nat ->
  exists lv w,
    build_multiscale_patch_index_map fuel depth = Returned (Some lv, w)
    /\ Z.of_nat (length (nodes w)) = geometric_sum (Z.to_nat depth)
    /\ forall a n, nodes w !! a = Some n -> index n = Z.of_nat a.
Proof. exact (build_numbering depth fuel). Qed.

Lemma build_indices_consecutive_witness :
  exists lv w,
    build_multiscale_patch_index_map 3 4 = Returned (Some lv, w)
    /\ Z.of_nat (length (nodes w)) = geometric_sum (Z.to_nat 4)
    /\ forall a n, nodes w !! a = Some n -> index n = Z.of_nat a.
Proof. apply (build_indices_consecutive 4 3); [lia | vm_compute; lia]. Defined.

(** X2: there is a recursion limit under which
    [build_multiscale_patch_index_map(depth)] returns a list of leaves
    exactly when depth >= 2; for every smaller depth no limit makes it
    return one. *)
Theorem build_returns_leaves_iff (depth : Z) :
  (exists fuel lv w,
     build_multiscale_patch_index_map fuel depth = Returned (Some lv, w))
  <-> 2 <= depth.
Proof.
  split.
  - intros (fuel & lv & w & E).
    destruct (Z.le_gt_cases 2 depth) as [H|H]; [exact H|].
    destruct (Z.lt_ge_cases depth 0) as [Hn|Hn].
    + rewrite build_negative in E by exact Hn. discriminate.
    + rewrite build_lost in E by lia. discriminate.
  - intros H. destruct (build_succeeds (Z.to_nat (depth - 1)) depth H ltac:(lia))
      as (lv & w & E & _).
    eauto.
Qed.


(** *** Children and parents *)

Lemma with_child_length h i node : length (with_child h i node) = S (length h).
Proof. unfold with_child. rewrite length_alter, length_app. simpl. lia. Qed.

Lemma with_child_parent h i node x :
  parent_of (with_child h i node) x =
  if decide (x < length h)%nat then parent_of h x
  else if decide (x = length h) then Some node else None.
Proof.
  rewrite !parent_of_links. unfold with_child. rewrite links_add_child, links_app.
  simpl. rewrite <- (links_length h).
  destruct (decide (x < length (links h))%nat) as [Hlt|Hge].
  - rewrite lookup_app_l by exact Hlt. reflexivity.
  - rewrite lookup_app_r by lia.
    destruct (decide (x = length (links h))) as [->|Hne].
    + rewrite Nat.sub_diag. reflexivity.
    + destruct (x - length (links h))%nat as [|k] eqn:E; [lia|]. reflexivity.
Qed.

Lemma with_child_lookup h i node p :
  (node < length h)%nat ->
  with_child h i node !! p =
  if decide (p = node)
  then (fun n => mkNode (index n) (parent n) (children n ++ [length h])) <$> h !! node
  else if decide (p < length h)%nat then h !! p
  else if decide (p = length h) then Some (mkNode i (Some node) []) else None.
Proof.
  intros Hn. unfold with_child.
  destruct (decide (p = node)) as [->|Hne].
  - rewrite list_lookup_alter_eq, lookup_app_l by exact Hn. reflexivity.
  - rewrite list_lookup_alter_ne by congruence.
    destruct (decide (p < length h)%nat) as [Hlt|Hge].
    + apply lookup_app_l. exact Hlt.
    + rewrite lookup_app_r by lia.
      destruct (decide (p = length h)) as [->|Hne'].
      * rewrite Nat.sub_diag. reflexivity.
      * destruct (p - length h)%nat as [|k] eqn:E; [lia|]. reflexivity.
Qed.

Lemma parent_of_lt h x p : parent_of h x = Some p -> (x < length h)%nat.
Proof.
  unfold parent_of. destruct (h !! x) as [n|] eqn:E; [|discriminate].
  intros _. apply lookup_lt_Some in E. exact E.
Qed.

Lemma family_ok_with_child h i node :
  family_ok h -> (node < length h)%nat -> family_ok (with_child h i node).
Proof.
  intros Hf Hn x p. rewrite with_child_parent, with_child_lookup by exact Hn.
  destruct (lookup_lt_is_Some_2 h node Hn) as [n0 Hn0].
  destruct (decide (x < length h)%nat) as [Hx|Hx].
  - rewrite (Hf x p). split.
    + intros (n & Hp & Hc). destruct (decide (p = node)) as [->|Hne].
      * rewrite Hn0 in *. injection Hp as <-. eexists. split; [reflexivity|].
        simpl. apply elem_of_app. by left.
      * apply lookup_lt_Some in Hp as Hlt.
        destruct (decide (p < length h)%nat); [eauto|lia].
    + intros (n & Hp & Hc). destruct (decide (p = node)) as [->|Hne].
      * rewrite Hn0 in Hp. injection Hp as <-. simpl in Hc.
        apply elem_of_app in Hc as [Hc|Hc]; [eauto|].
        apply list_elem_of_singleton in Hc. lia.
      * destruct (decide (p < length h)%nat); [eauto|].
        destruct (decide (p = length h)); [|discriminate].
        injection Hp as <-. simpl in Hc. inversion Hc.
  - destruct (decide (x = length h)) as [->|Hne].
    + split.
      * intros E. injection E as <-. destruct (decide (node = node)); [|congruence].
        rewrite Hn0. eexists. split; [reflexivity|]. simpl.
        apply elem_of_app. right. by left.
      * intros (n & Hp & Hc). destruct (decide (p = node)) as [->|Hne]; [reflexivity|].
        exfalso. destruct (decide (p < length h)%nat).
        -- assert (Hpar : parent_of h (length h) = Some p) by (apply Hf; eauto).
           apply parent_of_lt in Hpar. lia.
        -- destruct (decide (p = length h)); [|discriminate].
           injection Hp as <-. simpl in Hc. inversion Hc.
    + split; [discriminate|].
      intros (n & Hp & Hc). exfalso. destruct (decide (p = node)) as [->|Hne'].
      * rewrite Hn0 in Hp. injection Hp as <-. simpl in Hc.
        apply elem_of_app in Hc as [Hc|Hc].
        -- assert (Hpar : parent_of h x = Some node) by (apply Hf; eauto).
           apply parent_of_lt in Hpar. lia.
        -- apply list_elem_of_singleton in Hc. lia.
      * destruct (decide (p < length h)%nat).
        -- assert (Hpar : parent_of h x = Some p) by (apply Hf; eauto).
           apply parent_of_lt in Hpar. lia.
        -- destruct (decide (p = length h)); [|discriminate].
           injection Hp as <-. simpl in Hc. inversion Hc.
Qed.

(** The store after the comprehension of one call. *)
Lemma spawn_nodes ind node w :
  exists subnodes,
    comprehension (fun i => let! c := new_node (ind + i) (Some node) in add_child node c)
                  range4 w
    = Returned (subnodes,
                mkWorld (with_child (with_child (with_child (with_child (nodes w)
                           (ind + 0) node) (ind + 1) node) (ind + 2) node) (ind + 3) node)
                        (leaves w))
    /\ forall c, c ∈ subnodes -> (c < length (nodes w) + 4)%nat.
Proof.
  exists [length (nodes w);
          length (with_child (nodes w) (ind + 0) node);
          length (with_child (with_child (nodes w) (ind + 0) node) (ind + 1) node);
          length (with_child (with_child (with_child (nodes w) (ind + 0) node)
                                (ind + 1) node) (ind + 2) node)].
  split; [reflexivity|].
  intros c Hc. rewrite !with_child_length in Hc.
  repeat (apply elem_of_cons in Hc as [->|Hc]); [..|inversion Hc]; lia.
Qed.

Lemma for_each_family fuel depth :
  (forall ind node w ind' w',
     _build_multiscale_patch_index_map fuel depth ind node w = Returned (ind', w') ->
     family_ok (nodes w) -> (node < length (nodes w))%nat ->
     family_ok (nodes w') /\ (length (nodes w) <= length (nodes w'))%nat) ->
  forall cs ind w ind' w',
    for_each (fun ind n => _build_multiscale_patch_index_map fuel depth ind n) ind cs w
      = Returned (ind', w') ->
    family_ok (nodes w) -> (forall c, c ∈ cs -> (c < length (nodes w))%nat) ->
    family_ok (nodes w') /\ (length (nodes w) <= length (nodes w'))%nat.
Proof.
  intros IH. induction cs as [|c cs IHcs]; intros ind w ind' w' E Hf Hc.
  - injection E as <- <-. auto.
  - simpl in E. unfold bind at 1 in E.
    destruct (_build_multiscale_patch_index_map fuel depth ind c w) as [[ind1 w1]|e] eqn:E1;
      [|discriminate].
    destruct (IH _ _ _ _ _ E1 Hf) as [Hf1 Hl1]; [apply Hc; by left|].
    destruct (IHcs _ _ _ _ E Hf1) as [Hf2 Hl2].
    { intros c' Hc'. specialize (Hc c' ltac:(by right)). lia. }
    split; [exact Hf2|lia].
Qed.

Lemma build_family : forall fuel depth ind node w ind' w',
  _build_multiscale_patch_index_map fuel depth ind node w = Returned (ind', w') ->
  family_ok (nodes w) -> (node < length (nodes w))%nat ->
  family_ok (nodes w') /\ (length (nodes w) <= length (nodes w'))%nat.
Proof.
  induction fuel as [|fuel IH]; intros depth ind node w ind' w' E Hf Hn; [discriminate|].
  rewrite build_unfold in E. unfold bind at 1 in E.
  destruct (spawn_nodes ind node w) as (subnodes & E1 & Hsub). rewrite E1 in E.
  set (h4 := with_child _ (ind + 3) node) in *.
  assert (Hf4 : family_ok h4 /\ length h4 = (length (nodes w) + 4)%nat).
  { unfold h4. split.
    - repeat (apply family_ok_with_child; [|rewrite ?with_child_length; lia]). exact Hf.
    - rewrite !with_child_length. lia. }
  destruct Hf4 as [Hf4 Hl4].
  destruct (depth =? 1).
  - unfold bind, leaves_extend, ret in E. injection E as <- <-. simpl. split; [exact Hf4|lia].
  - apply (for_each_family fuel _ (IH (depth - 1))) in E; simpl.
    + simpl in E. destruct E as [Hfw Hlw]. split; [exact Hfw|lia].
    + exact Hf4.
    + intros c Hc. rewrite Hl4. apply Hsub, Hc.
Qed.

(** X3: in the tree built for depth >= 2 the two directions of the links
    agree: node [c] names [p] as its parent exactly when [c] is in the
    [children] list of [p]. *)
Theorem build_family_ok (depth : Z) (fuel : nat) :
  2 <= depth -> (Z.to_nat (depth - 1) <= fuel)%nat ->
  exists lv w,
    build_multiscale_patch_index_map fuel depth = Returned (Some lv, w)
    /\ forall c p, parent_of (nodes w) c = Some p
                   <-> exists n, nodes w !! p = Some n /\ c ∈ children n.
Proof.
  intros Hd Hf.
  destruct (build_succeeds fuel depth Hd Hf) as (lv & w & E & _ & _).
  exists lv, w. split; [exact E|].
  apply build_inversion in E as (_ & _ & ind' & E).
  apply build_family in E as [Hfam _]; [exact Hfam| |simpl; lia].
  intros c p. simpl. split.
  - intros H. destruct c as [|c]; discriminate.
  - intros (n & Hp & Hc). destruct p as [|p]; [|discriminate].
    injection Hp as <-. inversion Hc.
Qed.

Lemma build_family_ok_witness :
  exists lv w,
    build_multiscale_patch_index_map 3 4 = Returned (Some lv, w)
    /\ forall c p, parent_of (nodes w) c = Some p
                   <-> exists n, nodes w !! p = Some n /\ c ∈ children n.
Proof. apply (build_family_ok 4 3); [lia | vm_compute; lia]. Defined.

End TileTreeMore.

(** ** The dataset: crop window, regions and index *)

Module MultiScaleDatasetMore.
Import MultiScaleDataset. Import MultiScaleDatasetProofs.

Section Crop.
Context {pixel : Type}.

Lemma crop_start_margin (center : Z) (draw : Q) :
  2 <= center ->
  2 <= py_int (inject_Z center + clamp_offset draw * inject_Z (center - 2))
    <= 2 * center - 2.
Proof.
  intros Hc. destruct (clamp_offset_bounds draw) as [Hl Hu].
  set (o := clamp_offset draw) in *.
  apply py_int_between; [lia| |].
  - unfold Qle, Qplus, Qmult, inject_Z in *. destruct o as [n d]. simpl in *. nia.
  - unfold Qle, Qplus, Qmult, inject_Z in *. destruct o as [n d]. simpl in *. nia.
Qed.

(** X4: when |h - w| is not 1, [get_square_image] returns the square
    window of side min(h, w) that starts [shift] rows (or columns) into
    the longer side, with 0 <= shift <= |h - w|; once |h - w| >= 4 the
    shift stays within [2, |h - w| - 2], so the two outermost rows (or
    columns) at either end are never part of the crop. *)
Theorem get_square_image_window (img : image pixel) (draw : Q) :
  0 <= height img -> 0 <= width img ->
  Z.abs (height img - width img) <> 1 ->
  exists shift,
    0 <= shift <= Z.abs (height img - width img)
    /\ (4 <= Z.abs (height img - width img) ->
        2 <= shift <= Z.abs (height img - width img) - 2)
    /\ height (get_square_image img draw) = Z.min (height img) (width img)
    /\ width (get_square_image img draw) = Z.min (height img) (width img)
    /\ forall i j,
         at_ (get_square_image img draw) i j =
         if height img >? width img then at_ img (shift + i) j
         else at_ img i (shift + j).
Proof.
  intros Hh Hw Hd. unfold get_square_image.
  destruct (Z.eqb_spec (height img) (width img)) as [E|NE].
  { exists 0. rewrite E, Z.sub_diag. simpl. repeat split; try lia.
    intros i j. rewrite Z.gtb_ltb, Z.ltb_irrefl. reflexivity. }
  destruct (Z.gtb_spec (height img) (width img)) as [G|G].
  - pose proof (crop_start_in_range ((height img - width img) / 2) draw) as Hr.
    pose proof (crop_start_margin ((height img - width img) / 2) draw) as Hg.
    set (top := py_int _) in *.
    assert (Hc : 1 <= (height img - width img) / 2)
      by (apply Z.div_le_lower_bound; lia).
    specialize (Hr Hc).
    assert (Hm : 2 * ((height img - width img) / 2) <= height img - width img)
      by (apply Z.mul_div_le; lia).
    exists top. split; [lia|]. split.
    { intros H4. assert (2 <= (height img - width img) / 2)
        by (apply Z.div_le_lower_bound; lia). lia. }
    unfold slice_rows, slice_bounds, slice_index.
    destruct (Z.ltb_spec top 0); [lia|].
    destruct (Z.ltb_spec (top + width img) 0); [lia|].
    simpl. repeat split; try lia.
    intros i j. replace (Z.min top (height img)) with top by lia. reflexivity.
  - pose proof (crop_start_in_range ((width img - height img) / 2) draw) as Hr.
    pose proof (crop_start_margin ((width img - height img) / 2) draw) as Hg.
    set (left := py_int _) in *.
    assert (Hc : 1 <= (width img - height img) / 2)
      by (apply Z.div_le_lower_bound; lia).
    specialize (Hr Hc).
    assert (Hm : 2 * ((width img - height img) / 2) <= width img - height img)
      by (apply Z.mul_div_le; lia).
    exists left. split; [lia|]. split.
    { intros H4. assert (2 <= (width img - height img) / 2)
        by (apply Z.div_le_lower_bound; lia). lia. }
    unfold slice_cols, slice_bounds, slice_index.
    destruct (Z.ltb_spec left 0); [lia|].
    destruct (Z.ltb_spec (left + height img) 0); [lia|].
    simpl. repeat split; try lia.
    intros i j. replace (Z.min left (width img)) with left by lia. reflexivity.
Qed.

(** The four slices of [recursively_extract_patches] on a square of side [2p]. *)
Lemma quadrants_spec (img : image pixel) (p : Z) :
  0 <= p -> height img = 2 * p -> width img = 2 * p ->
  exists tl tr bl br,
    quadrants img p = [tl; tr; bl; br]
    /\ Forall (fun q => height q = p /\ width q = p) [tl; tr; bl; br]
    /\ forall i j,
         at_ tl i j = at_ img i j
         /\ at_ tr i j = at_ img i (p + j)
         /\ at_ bl i j = at_ img (p + i) j
         /\ at_ br i j = at_ img (p + i) (p + j).
Proof.
  intros Hp Hh Hw. eexists _, _, _, _. split; [reflexivity|].
  unfold slice_cols, slice_rows, slice_bounds, slice_index. simpl.
  rewrite Hh, Hw.
  destruct (Z.ltb_spec p 0); [lia|].
  replace (Z.min p (2 * p)) with p by lia.
  replace (Z.max (p - 0) 0) with p by lia.
  replace (Z.max (2 * p - p) 0) with p by lia.
  split; [repeat constructor|].
  intros i j. repeat split.
Qed.

(** X5: on a square image of side 2 * patch_size the four slices
    [[:p, :p]], [[:p, p:]], [[p:, :p]] and [[p:, p:]] are the four
    patch_size squares that tile it: top left, top right, bottom left
    and bottom right, each pixel of the image in exactly one of them. *)
Theorem quadrants_partition (img : image pixel) (p : Z) :
  0 <= p -> height img = 2 * p -> width img = 2 * p ->
  exists tl tr bl br,
    quadrants img p = [tl; tr; bl; br]
    /\ Forall (fun q => height q = p /\ width q = p) [tl; tr; bl; br]
    /\ forall i j,
         at_ tl i j = at_ img i j
         /\ at_ tr i j = at_ img i (p + j)
         /\ at_ bl i j = at_ img (p + i) j
         /\ at_ br i j = at_ img (p + i) (p + j).
Proof. exact (quadrants_spec img p). Qed.

End Crop.

Section Regions.
Context {pixel path : Type}.
Variable cv2_resize : image pixel -> Z -> Z -> image pixel.
Variable self : MultiScaleDataset path.

Local Abbreviation extract := (recursively_extract_patches cv2_resize self).
Local Abbreviation region_tile := (MultiScaleDataset.region_tile cv2_resize self).


(** The side of the regions cut at recursion depth [d]. *)
Lemma cap_div (d : Z) :
  0 <= d <= num_scales self ->
  hq_size_cap self / 2 ^ d = tile_size self * 2 ^ (num_scales self - d).
Proof.
  intros Hd. unfold hq_size_cap.
  replace (num_scales self) with ((num_scales self - d) + d) at 1 by lia.
  rewrite Z.pow_add_r by lia. rewrite Z.mul_assoc.
  apply Z.div_mul. apply Z.pow_nonzero; lia.
Qed.

Lemma region_tile_weaken d d' t : d' <= d -> region_tile d t -> region_tile d' t.
Proof. intros H (q & e & ? & ? & ?). exists q, e. intuition lia. Qed.

Lemma extract_regions_from : forall n depth input_img result_list,
  Z.to_nat (num_scales self - depth) = n ->
  0 <= tile_size self -> 0 <= depth ->
  height input_img = 2 * (tile_size self * 2 ^ (num_scales self - depth)) ->
  width input_img = 2 * (tile_size self * 2 ^ (num_scales self - depth)) ->
  exists added, extract input_img result_list depth = result_list ++ added
                /\ Forall (region_tile depth) added.
Proof.
  induction n as [|n IH]; intros depth input_img result_list Hn Ht Hd Hh Hw.
  - exists []. rewrite extract_stop by lia. split; [symmetry; apply app_nil_r|constructor].
  - rewrite extract_step by lia. rewrite cap_div by lia.
    set (p := tile_size self * 2 ^ (num_scales self - depth)) in *.
    assert (Hp : 0 <= p) by (apply Z.mul_nonneg_nonneg; [lia|apply Z.pow_nonneg; lia]).
    destruct (quadrants_spec input_img p Hp Hh Hw) as (tl & tr & bl & br & Eq & Hq & _).
    rewrite Eq.
    assert (Hhalf : p = 2 * (tile_size self * 2 ^ (num_scales self - (depth + 1)))).
    { unfold p. replace (num_scales self - depth) with (Z.succ (num_scales self - (depth + 1)))
        by lia. rewrite Z.pow_succ_r by lia. lia. }
    assert (Hfold : forall (l : list (image pixel)) r,
               Forall (fun q => height q = p /\ width q = p) l ->
               exists added,
                 fold_left (fun r q => extract q r (depth + 1)) l r = r ++ added
                 /\ Forall (region_tile depth) added).
    { induction l as [|q l IHl]; intros r Hl.
      - exists []. split; [symmetry; apply app_nil_r|constructor].
      - apply Forall_cons in Hl as [[Hqh Hqw] Hl].
        destruct (IH (depth + 1) q r ltac:(lia) Ht ltac:(lia)) as (a1 & E1 & F1);
          [rewrite Hqh; exact Hhalf|rewrite Hqw; exact Hhalf|].
        simpl fold_left. rewrite E1.
        destruct (IHl (r ++ a1) Hl) as (a2 & E2 & F2).
        exists (a1 ++ a2). split; [rewrite E2; symmetry; apply app_assoc|].
        apply Forall_app. split; [|exact F2].
        eapply Forall_impl; [exact F1|]. intros t. apply region_tile_weaken. lia. }
    destruct (Hfold [tl; tr; bl; br]
                (result_list ++ map (fun q => cv2_resize q (tile_size self) (tile_size self))
                                    [tl; tr; bl; br]) Hq) as (a & E & F).
    eexists. split; [rewrite E, <- app_assoc; reflexivity|].
    apply Forall_app. split; [|exact F].
    simpl map. repeat (apply Forall_cons in Hq as [[? ?] Hq]).
    repeat (apply Forall_cons; split); [..|constructor];
      (eexists _, depth; split; [reflexivity|]; split; [lia|]; split; assumption).
Qed.

(** X7: when [cv2.resize] returns an image of the shape it is asked for,
    the pyramid of [__getitem__] starts with the resize of the whole
    capped image and every later tile is the resize of a square region of
    side hq_size_cap // 2^d for a level 1 <= d < num_scales: the halving
    is exact at every level, no region is cut short by the image edge. *)
Theorem pyramid_regions (img_full : image pixel) :
  0 <= tile_size self -> 1 <= num_scales self ->
  height (cv2_resize img_full (hq_size_cap self) (hq_size_cap self)) = hq_size_cap self ->
  width (cv2_resize img_full (hq_size_cap self) (hq_size_cap self)) = hq_size_cap self ->
  exists rest,
    patch_pyramid cv2_resize self img_full =
      cv2_resize (cv2_resize img_full (hq_size_cap self) (hq_size_cap self))
                 (tile_size self) (tile_size self) :: rest
    /\ Forall (fun t => exists q d,
                 t = cv2_resize q (tile_size self) (tile_size self)
                 /\ 1 <= d < num_scales self
                 /\ height q = hq_size_cap self / 2 ^ d
                 /\ width q = hq_size_cap self / 2 ^ d) rest.
Proof.
  intros Ht Hs Hh Hw. unfold patch_pyramid.
  assert (Hcap : hq_size_cap self = 2 * (tile_size self * 2 ^ (num_scales self - 1))).
  { unfold hq_size_cap. replace (num_scales self) with (Z.succ (num_scales self - 1)) at 1
      by lia. rewrite Z.pow_succ_r by lia. lia. }
  destruct (extract_regions_from (Z.to_nat (num_scales self - 1)) 1
              (cv2_resize img_full (hq_size_cap self) (hq_size_cap self))
              [cv2_resize (cv2_resize img_full (hq_size_cap self) (hq_size_cap self))
                          (tile_size self) (tile_size self)] eq_refl Ht ltac:(lia))
    as (added & E & F); [rewrite Hh; exact Hcap|rewrite Hw; exact Hcap|].
  exists added. split; [rewrite E; reflexivity|].
  eapply Forall_impl; [exact F|].
  intros t (q & d & Et & Hd & Hqh & Hqw). exists q, d.
  rewrite cap_div by lia. auto.
Qed.

End Regions.

Section Items.
Context {pixel path tensor : Type}.
Variable cv2_resize : image pixel -> Z -> Z -> image pixel.
Variable read_img : path -> image pixel.
Variables channel_convert augment : image pixel -> image pixel.
Variable to_tensor : image pixel -> tensor.
Variable interpolate : Z -> tensor -> tensor.
Variable self : MultiScaleDataset path.

Local Abbreviation getitem :=
  (__getitem__ cv2_resize read_img channel_convert augment to_tensor interpolate self).

(** X8: [__getitem__] depends on the index only through
    index % len(paths_hq): shifting the index by any multiple of
    [len(self)], negative multiples included, selects the same path and
    gives the same sample. *)
Theorem getitem_periodic (index k : Z) (draw : Q) :
  select_path self (index + k * __len__ self) = select_path self index
  /\ getitem (index + k * __len__ self) draw = getitem index draw.
Proof.
  assert (E : select_path self (index + k * __len__ self) = select_path self index).
  { unfold select_path, py_mod, __len__.
    destruct (Z.eqb_spec (Z.of_nat (length (paths_hq self))) 0) as [E0|E0]; [reflexivity|].
    rewrite Z.mod_add by exact E0. reflexivity. }
  split; [exact E|]. unfold __getitem__. rewrite E. reflexivity.
Qed.

(** X9: on a dataset with no image paths [__len__] is 0 and
    [__getitem__] raises [ZeroDivisionError] for every index. *)
Theorem getitem_empty (index : Z) (draw : Q) :
  paths_hq self = [] ->
  __len__ self = 0 /\ getitem index draw = Raised ZeroDivisionError.
Proof.
  intros E. unfold __getitem__, select_path, py_mod, __len__. rewrite E. split; reflexivity.
Qed.

End Items.

Lemma pyramid_regions_witness :
  exists rest,
    patch_pyramid Fixture.resize (Fixture.dataset 3) Fixture.source =
      Fixture.resize (Fixture.resize Fixture.source 16 16) 2 2 :: rest
    /\ Forall (fun t => exists q d,
                 t = Fixture.resize q 2 2
                 /\ 1 <= d < 3
                 /\ height q = 16 / 2 ^ d
                 /\ width q = 16 / 2 ^ d) rest.
Proof.
  apply (pyramid_regions Fixture.resize (Fixture.dataset 3) Fixture.source);
    simpl; solve [lia | reflexivity].
Defined.

Lemma getitem_empty_witness :
  __len__ (mkDataset 2 2 2 (@nil nat)) = 0
  /\ __getitem__ Fixture.resize (fun _ : nat => Fixture.source) id id id (fun _ t => t)
       (mkDataset 2 2 2 []) 5 0 = Raised ZeroDivisionError.
Proof.
  apply (getitem_empty Fixture.resize (fun _ : nat => Fixture.source) id id id
           (fun _ t => t) (mkDataset 2 2 2 []) 5 0).
  reflexivity.
Defined.

Lemma get_square_image_window_witness :
  exists shift,
    0 <= shift <= Z.abs (8 - 3)
    /\ (4 <= Z.abs (8 - 3) -> 2 <= shift <= Z.abs (8 - 3) - 2)
    /\ height (get_square_image (mkImage 8 3 (fun i j => i * 3 + j)) (1 # 3)) = Z.min 8 3
    /\ width (get_square_image (mkImage 8 3 (fun i j => i * 3 + j)) (1 # 3)) = Z.min 8 3
    /\ forall i j,
         at_ (get_square_image (mkImage 8 3 (fun i j => i * 3 + j)) (1 # 3)) i j =
         if 8 >? 3 then (shift + i) * 3 + j else i * 3 + (shift + j).
Proof.
  apply (get_square_image_window (mkImage 8 3 (fun i j => i * 3 + j)) (1 # 3));
    simpl; lia.
Defined.

Lemma quadrants_partition_witness :
  exists tl tr bl br,
    quadrants Fixture.source 4 = [tl; tr; bl; br]
    /\ Forall (fun q => height q = 4 /\ width q = 4) [tl; tr; bl; br]
    /\ forall i j,
         at_ tl i j = at_ Fixture.source i j
         /\ at_ tr i j = at_ Fixture.source i (4 + j)
         /\ at_ bl i j = at_ Fixture.source (4 + i) j
         /\ at_ br i j = at_ Fixture.source (4 + i) (4 + j).
Proof. apply (quadrants_partition Fixture.source 4); [lia | reflexivity | reflexivity]. Defined.

End MultiScaleDatasetMore.

(** ** The script at the end of the dataset file *)

Module DebugScriptProofs.
Import TileTree TileTreeProofs TileTreeMore DebugScript.
Import MultiScaleDataset.

Lemma py_list_get_in_range {A} (l : list A) (i : Z) :
  0 <= i < Z.of_nat (length l) ->
  exists x, py_list_get l i = Returned x /\ l !! Z.to_nat i = Some x.
Proof.
  intros Hi. unfold py_list_get.
  assert (Hlt : (i <? 0) = false) by (apply Z.ltb_ge; lia).
  assert (Hle : (Z.of_nat (length l) <=? i) = false) by (apply Z.leb_gt; lia).
  cbv zeta. rewrite Hlt. cbv iota. rewrite Hlt, Hle. simpl orb. cbv iota.
  destruct (lookup_lt_is_Some_2 l (Z.to_nat i)) as [x Hx]; [lia|].
  rewrite Hx. eauto.
Qed.

Lemma py_list_get_out_of_range {A} (l : list A) (i : Z) :
  Z.of_nat (length l) <= i -> py_list_get l i = Raised IndexError.
Proof.
  intros Hi. unfold py_list_get.
  assert (Hlt : (i <? 0) = false) by (apply Z.ltb_ge; lia).
  assert (Hle : (Z.of_nat (length l) <=? i) = true) by (apply Z.leb_le; lia).
  cbv zeta. rewrite Hlt. cbv iota. rewrite Hlt, Hle. reflexivity.
Qed.

(** X10: [random.randint(0, len(multiscale_tree))] includes its upper end,
    so [multiscale_tree[tree_ind]] raises [IndexError] exactly when the
    draw is len(multiscale_tree), which the generator can produce; any
    other draw yields a member of the list. *)
Theorem pick_leaf_index_error (multiscale_tree : list addr) (entropy : Z) :
  (pick_leaf multiscale_tree entropy = Raised IndexError
   <-> Vocoder.randint 0 (Z.of_nat (length multiscale_tree)) entropy
       = Z.of_nat (length multiscale_tree))
  /\ pick_leaf multiscale_tree (Z.of_nat (length multiscale_tree)) = Raised IndexError
  /\ (Vocoder.randint 0 (Z.of_nat (length multiscale_tree)) entropy
        <> Z.of_nat (length multiscale_tree) ->
      exists leaf, pick_leaf multiscale_tree entropy = Returned leaf
                   /\ leaf ∈ multiscale_tree).
Proof.
  set (n := Z.of_nat (length multiscale_tree)).
  assert (Hr : forall e, 0 <= Vocoder.randint 0 n e <= n).
  { intros e. unfold Vocoder.randint.
    pose proof (Z.mod_pos_bound e (n - 0 + 1) ltac:(lia)). lia. }
  assert (Hok : forall e, Vocoder.randint 0 n e <> n ->
            exists leaf, pick_leaf multiscale_tree e = Returned leaf
                         /\ leaf ∈ multiscale_tree).
  { intros e Hne. unfold pick_leaf. fold n.
    destruct (py_list_get_in_range multiscale_tree (Vocoder.randint 0 n e))
      as (x & E & Hx); [specialize (Hr e); lia|].
    exists x. split; [exact E|]. eapply list_elem_of_lookup_2. exact Hx. }
  assert (Hbad : forall e, Vocoder.randint 0 n e = n ->
            pick_leaf multiscale_tree e = Raised IndexError).
  { intros e He. unfold pick_leaf. fold n. rewrite He.
    apply py_list_get_out_of_range. lia. }
  split; [|split].
  - split; [|apply Hbad].
    intros E. destruct (Z.eq_dec (Vocoder.randint 0 n entropy) n) as [H|H]; [exact H|].
    destruct (Hok entropy H) as (leaf & E' & _). congruence.
  - apply Hbad. unfold Vocoder.randint.
    replace (n - 0 + 1) with (n + 1) by lia. rewrite Z.mod_small by lia. lia.
  - apply Hok.
Qed.

(** Walking up a chain of [k] links whose nodes carry valid indices of
    [v] saves [k + 1] entries and stops at the parentless node. *)
Lemma walk_up_chain {A} (h : list MultiscaleTreeNode) (v : list A) :
  (forall a n, h !! a = Some n -> index n = Z.of_nat a) ->
  (length h <= length v)%nat ->
  forall k fuel a r depth saved,
    climb h k a = Some r -> (exists n, h !! r = Some n /\ parent n = None) ->
    (k < fuel)%nat ->
    exists xs,
      walk_up fuel h v (Some a) depth saved
        = Some (Returned (depth + Z.of_nat (S k), saved ++ xs))
      /\ length xs = S k
      /\ xs !! 0%nat = v !! a
      /\ xs !! k = v !! r.
Proof.
  intros Hidx Hlen. induction k as [|k IH]; intros [|fuel] a r depth saved Hc Hr Hf; try lia.
  - simpl in Hc. injection Hc as ->. destruct Hr as (n & Hn & Hp).
    simpl. rewrite Hn. rewrite (Hidx _ _ Hn).
    destruct (py_list_get_in_range v (Z.of_nat r)) as (x & E & Hx).
    { apply lookup_lt_Some in Hn. lia. }
    rewrite E, Hp. rewrite Nat2Z.id in Hx.
    exists [x]. repeat split; try (simpl; congruence).
    replace (depth + Z.of_nat 1) with (depth + 1) by lia.
    destruct fuel; reflexivity.
  - simpl in Hc. unfold parent_of in Hc.
    destruct (h !! a) as [n|] eqn:Hn; [|discriminate].
    destruct (parent n) as [p|] eqn:Hp; [|discriminate].
    simpl. rewrite Hn. rewrite (Hidx _ _ Hn).
    destruct (py_list_get_in_range v (Z.of_nat a)) as (x & E & Hx).
    { apply lookup_lt_Some in Hn. lia. }
    rewrite E, Hp. rewrite Nat2Z.id in Hx.
    destruct (IH fuel p r (depth + 1) (saved ++ [x]) Hc Hr ltac:(lia))
      as (xs & Ew & Lx & _ & Hlast).
    exists (x :: xs). split.
    { rewrite Ew, <- app_assoc. simpl app.
      replace (depth + 1 + Z.of_nat (S k)) with (depth + Z.of_nat (S (S k))) by lia.
      reflexivity. }
    split; [simpl; lia|]. split; [simpl; congruence|]. exact Hlast.
Qed.

Section Walk.
Context {pixel path : Type}.
Variable cv2_resize : image pixel -> Z -> Z -> image pixel.
Variable self : MultiScaleDataset path.

(** X11: for num_scales >= 2 the tree built by
    [build_multiscale_patch_index_map(num_scales)] has as many nodes as
    the pyramid of [__getitem__] has tiles, so the loop
    [while node is not None] of the script never raises: from every leaf
    it saves exactly num_scales tiles, the first the one at the leaf's
    index, the last tile 0 (the whole image), and leaves depth at
    num_scales. *)
Theorem walk_up_pyramid (img_full : image pixel) (fuel wfuel : nat) :
  2 <= num_scales self ->
  (Z.to_nat (num_scales self - 1) <= fuel)%nat ->
  (Z.to_nat (num_scales self) <= wfuel)%nat ->
  exists lv w,
    build_multiscale_patch_index_map fuel (num_scales self) = Returned (Some lv, w)
    /\ length (nodes w) = length (patch_pyramid cv2_resize self img_full)
    /\ forall l, l ∈ lv ->
         exists saved,
           walk_up wfuel (nodes w) (patch_pyramid cv2_resize self img_full)
                   (Some l) 0 []
             = Some (Returned (num_scales self, saved))
           /\ Z.of_nat (length saved) = num_scales self
           /\ saved !! 0%nat = patch_pyramid cv2_resize self img_full !! l
           /\ saved !! Z.to_nat (num_scales self - 1)
              = patch_pyramid cv2_resize self img_full !! 0%nat.
Proof.
  intros Hs Hf Hw.
  set (v := patch_pyramid cv2_resize self img_full).
  destruct (build_succeeds fuel (num_scales self) Hs Hf)
    as (lv & w & E & Hl & [t Ht] & new & L & _ & C).
  destruct (build_numbering (num_scales self) fuel Hs Hf)
    as (lv' & w' & E' & Hn & Hidx).
  rewrite E in E'. injection E' as <- <-.
  destruct (MultiScaleDatasetProofs.patch_pyramid_shape cv2_resize self img_full ltac:(lia)) as (_ & _ & Lv).
  fold v in Lv.
  assert (Hlen : length (nodes w) = length v) by lia.
  exists lv, w. split; [exact E|]. split; [exact Hlen|].
  intros l Hin. simpl in L. rewrite <- Hl, L in Hin.
  assert (Hroot : exists n, nodes w !! 0%nat = Some n /\ parent n = None).
  { simpl in Ht.
    assert (Hk : links (nodes w) !! 0%nat = Some (0, None)) by (rewrite Ht; reflexivity).
    rewrite links_lookup in Hk.
    destruct (nodes w !! 0%nat) as [n|]; [|discriminate].
    simpl in Hk. exists n. split; [reflexivity|congruence]. }
  destruct (walk_up_chain (nodes w) v Hidx ltac:(lia) (Z.to_nat (num_scales self - 1))
              wfuel l 0%nat 0 [] (C l Hin) Hroot ltac:(lia))
    as (xs & Ew & Lx & H0 & Hlast).
  exists xs. split.
  { rewrite Ew. simpl app.
    replace (0 + Z.of_nat (S (Z.to_nat (num_scales self - 1)))) with (num_scales self) by lia.
    reflexivity. }
  split; [lia|]. split; [exact H0|exact Hlast].
Qed.

End Walk.

Lemma walk_up_pyramid_witness :
  exists lv w,
    build_multiscale_patch_index_map 2 3 = Returned (Some lv, w)
    /\ length (nodes w) = length (patch_pyramid Fixture.resize (Fixture.dataset 3) Fixture.source)
    /\ forall l, l ∈ lv ->
         exists saved,
           walk_up 3 (nodes w) (patch_pyramid Fixture.resize (Fixture.dataset 3) Fixture.source)
                   (Some l) 0 []
             = Some (Returned (3, saved))
           /\ Z.of_nat (length saved) = 3
           /\ saved !! 0%nat
              = patch_pyramid Fixture.resize (Fixture.dataset 3) Fixture.source !! l
           /\ saved !! 2%nat
              = patch_pyramid Fixture.resize (Fixture.dataset 3) Fixture.source !! 0%nat.
Proof.
  apply (walk_up_pyramid Fixture.resize (Fixture.dataset 3) Fixture.source 2 3);
    simpl; lia.
Defined.

End DebugScriptProofs.

(** ** The vocoder network: channels, resolution and windows *)

Module VocoderMore.
Import Vocoder. Import VocoderProofs.

Lemma layers_channels_app (l1 l2 : list layer) (c : Z) :
  layers_channels (l1 ++ l2) c =
  match layers_channels l1 c with
  | Some c' => layers_channels l2 c'
  | None => None
  end.
Proof.
  revert c. induction l1 as [|l l1 IH]; intros c; simpl; [reflexivity|].
  destruct (layer_channels l c); [apply IH|reflexivity].
Qed.

Lemma for_loop_invariant {A S} (P : S -> Prop) (body : S -> A -> outcome S) :
  (forall s x s', P s -> body s x = Returned s' -> P s') ->
  forall l s s', P s -> for_loop body s l = Returned s' -> P s'.
Proof.
  intros Hstep. induction l as [|x l IH]; intros s s' Hs E; simpl in E.
  - injection E as <-. exact Hs.
  - destruct (body s x) as [s1|e] eqn:E1; [|discriminate].
    simpl in E. eapply IH; [|exact E]. eapply Hstep; eauto.
Qed.

Section Flow.
Variable hp : hparams.

Lemma attention_channels heads d c :
  layers_channels (attention hp heads d c) c = Some c.
Proof.
  unfold attention. destruct (contains _ _); simpl; [|reflexivity].
  rewrite Z.eqb_refl. reflexivity.
Qed.

(** The channel counts that [forward] sees along [input_blocks] are the
    ones the constructor tracked in [ch] and [input_block_chans]. *)
Local Abbreviation down_flow b :=
  (fold_left input_step (input_blocks b) (Some (model_channels hp / 2, []))
   = Some (ch b, input_block_chans b)).

Lemma down_flow_init : down_flow (init_builder hp).
Proof. simpl. rewrite Z.eqb_refl. reflexivity. Qed.

Lemma down_flow_spec_cond b : down_flow b -> down_flow (spec_cond_step hp b).
Proof.
  unfold spec_cond_step. intros H.
  destruct (contains _ _); [|exact H]. simpl.
  rewrite fold_left_app, H. simpl. do 2 f_equal. lia.
Qed.

Lemma down_flow_res_step mult b : down_flow b -> down_flow (res_step hp mult b).
Proof.
  unfold res_step. intros H. simpl.
  rewrite fold_left_app, H. simpl. rewrite Z.eqb_refl, attention_channels.
  destruct (attention hp (num_heads hp) (ds b) (level_channels hp mult)); reflexivity.
Qed.

Lemma down_flow_res_steps mult n b :
  down_flow b -> down_flow (Nat.iter n (res_step hp mult) b).
Proof. intros H. induction n as [|n IH]; [exact H|]. simpl. apply down_flow_res_step, IH. Qed.

Lemma down_flow_downsample level b : down_flow b -> down_flow (downsample_step hp level b).
Proof.
  unfold downsample_step. intros H.
  destruct (negb _); [|exact H]. simpl.
  rewrite fold_left_app, H. simpl.
  destruct (resblock_updown hp); simpl; rewrite Z.eqb_refl; reflexivity.
Qed.

Lemma down_flow_levels lvls : forall b,
  down_flow b -> down_flow (fold_left (down_level hp) lvls b).
Proof.
  induction lvls as [|[level [mult n]] lvls IH]; intros b H; [exact H|].
  simpl. apply IH.
  apply down_flow_downsample, down_flow_res_steps, down_flow_spec_cond, H.
Qed.

Lemma down_flow_down_path : down_flow (down_path hp).
Proof. apply down_flow_levels, down_flow_init. Qed.

(** The down path builds no output block. *)
Lemma down_output_blocks : output_blocks (down_path hp) = [].
Proof.
  unfold down_path.
  assert (H : forall lvls b, output_blocks b = [] ->
                output_blocks (fold_left (down_level hp) lvls b) = []).
  { induction lvls as [|[level [mult n]] lvls IH]; intros b Hb; [exact Hb|].
    simpl. apply IH. unfold downsample_step.
    assert (Hr : output_blocks (Nat.iter n (res_step hp mult) (spec_cond_step hp b)) = []).
    { induction n as [|n IHn]; simpl; [|exact IHn].
      unfold spec_cond_step. destruct (contains _ _); exact Hb. }
    destruct (negb _); exact Hr. }
  apply H. reflexivity.
Qed.

(** The same along [output_blocks], from the state [(c0, hs0)] in which
    the up path starts. *)
Local Abbreviation up_flow c0 hs0 b :=
  (fold_left output_step (output_blocks b) (Some (c0, hs0))
   = Some (ch b, input_block_chans b)).

Lemma up_flow_step c0 hs0 level mult num_blocks b i b' :
  up_flow c0 hs0 b ->
  up_step hp level mult num_blocks b i = Returned b' ->
  up_flow c0 hs0 b'.
Proof.
  unfold up_step. intros H E.
  destruct (pop (input_block_chans b)) as [[ich rest]|e] eqn:Ep; [|discriminate].
  simpl in E. injection E as <-. simpl.
  rewrite fold_left_app, H. simpl. rewrite Ep.
  destruct (negb (level =? 0)%nat && (i =? num_blocks)%nat); simpl.
  - rewrite Z.eqb_refl. rewrite layers_channels_app, attention_channels.
    destruct (resblock_updown hp); simpl; rewrite Z.eqb_refl; reflexivity.
  - rewrite Z.eqb_refl, attention_channels. reflexivity.
Qed.

Lemma up_flow_level c0 hs0 b lv b' :
  up_flow c0 hs0 b -> up_level hp b lv = Returned b' -> up_flow c0 hs0 b'.
Proof.
  destruct lv as [level [mult n]]. unfold up_level. intros H E.
  eapply (for_loop_invariant (fun b0 => up_flow c0 hs0 b0)); [|exact H|exact E].
  intros s x s' Hs Es. eapply up_flow_step; eauto.
Qed.

Lemma up_flow_path c0 hs0 b lvls b' :
  up_flow c0 hs0 b -> for_loop (up_level hp) b lvls = Returned b' -> up_flow c0 hs0 b'.
Proof.
  intros H E. eapply (for_loop_invariant (fun b0 => up_flow c0 hs0 b0)); [|exact H|exact E].
  intros s x s' Hs Es. eapply up_flow_level; eauto.
Qed.

(** The channel count after the up path is the one of level 0. *)
Lemma up_steps_ch level mult num_blocks : forall idxs b b',
  idxs <> [] ->
  for_loop (up_step hp level mult num_blocks) b idxs = Returned b' ->
  ch b' = level_channels hp mult.
Proof.
  induction idxs as [|i idxs IH]; intros b b' Hne E; [congruence|].
  simpl in E. destruct (up_step hp level mult num_blocks b i) as [b1|e] eqn:E1; [|discriminate].
  simpl in E. destruct idxs as [|j idxs].
  - simpl in E. injection E as <-. unfold up_step in E1.
    destruct (pop (input_block_chans b)) as [[ich rest]|e]; [|discriminate].
    simpl in E1. injection E1 as <-. reflexivity.
  - eapply IH; [discriminate|exact E].
Qed.

Lemma up_path_ch b b' level mult n rest :
  levels hp = (level, (mult, n)) :: rest ->
  up_path hp b = Returned b' ->
  ch b' = level_channels hp mult.
Proof.
  unfold up_path. intros El E. rewrite El in E. simpl rev in E.
  rewrite for_loop_app in E.
  destruct (for_loop (up_level hp) b (rev rest)) as [b1|e]; [|discriminate].
  simpl in E. destruct (for_loop (up_step hp level mult n) b1 (seq 0 (n + 1))) as [b2|e] eqn:E2;
    [|discriminate].
  simpl in E. injection E as <-.
  eapply up_steps_ch; [|exact E2]. rewrite Nat.add_1_r. discriminate.
Qed.

(** X12: for level lists of equal length >= 1 the assembled network is
    consistent in its channel counts: sending [in_channels] channels
    through [cheater_input_block], [input_blocks], [middle_block] and
    [output_blocks], with the skip concatenations of [forward], every
    layer receives the number of channels it was built for, every skip is
    used, and int(channel_mult[0] * model_channels) channels come out. *)
Theorem unet_channels_agree (mult0 : Q) (rest : list Q) :
  length (channel_mult hp) = length (num_res_blocks hp) ->
  channel_mult hp = mult0 :: rest ->
  exists n,
    assemble hp = Returned n
    /\ unet_channels n (in_channels hp) = Some (level_channels hp mult0, []).
Proof.
  intros Hl Hcm.
  assert (Hne : channel_mult hp <> []) by (rewrite Hcm; discriminate).
  destruct (plan_blocks_stack hp Hl Hne) as (_ & _ & b & E & Hb & Hi & _).
  destruct (assemble_returns hp Hl Hne) as [n En].
  exists n. split; [exact En|].
  unfold assemble in En. unfold plan_blocks in E. rewrite E in En. simpl in En.
  destruct (leftover_num_blocks hp) as [k|e]; [|discriminate].
  simpl in En. injection En as <-.
  unfold unet_channels. simpl. rewrite Z.eqb_refl.
  rewrite Hi. pose proof down_flow_down_path as Hd. rewrite Hd.
  rewrite Z.eqb_refl. simpl. rewrite !Z.eqb_refl.
  assert (Hu0 : up_flow (ch (down_path hp)) (input_block_chans (down_path hp))
                        (after_middle (down_path hp))).
  { simpl. rewrite down_output_blocks. reflexivity. }
  pose proof (up_flow_path _ _ _ _ _ Hu0 E) as Hu.
  rewrite Hu, Hb.
  destruct (levels hp) as [|[level [mult k']] lvls] eqn:El.
  { unfold levels, enumerate in El.
    destruct (zipped_blocks _ _ Hl) as [_ Hlen].
    assert (Hpos : (0 < length (channel_mult hp))%nat) by (rewrite Hcm; simpl; lia).
    destruct (combine (channel_mult hp) (num_res_blocks hp));
      [simpl in Hlen; lia|discriminate El]. }
  rewrite (up_path_ch _ _ _ _ _ _ El E).
  assert (mult = mult0); [|subst; reflexivity].
  unfold levels, enumerate in El. rewrite Hcm in El.
  destruct (num_res_blocks hp); simpl in El; [discriminate|]. congruence.
Qed.


(** *** The resolution factor *)

Lemma combine_seq_cons {A} (z : A) (zs : list A) (start : nat) :
  combine (seq start (length (z :: zs))) (z :: zs)
  = (start, z) :: combine (seq (S start) (length zs)) zs.
Proof. reflexivity. Qed.

Lemma res_steps_ds mult n b : ds (Nat.iter n (res_step hp mult) b) = ds b.
Proof. induction n as [|n IH]; [reflexivity|exact IH]. Qed.

Lemma spec_cond_ds b : ds (spec_cond_step hp b) = ds b.
Proof. unfold spec_cond_step. destruct (contains _ _); reflexivity. Qed.

Lemma down_level_ds b level mult n :
  ds (down_level hp b (level, (mult, n))) =
  if negb (Z.of_nat level =? Z.of_nat (length (channel_mult hp)) - 1)
  then ds b * 2 else ds b.
Proof.
  unfold down_level, downsample_step.
  destruct (negb _); simpl; rewrite res_steps_ds, spec_cond_ds; reflexivity.
Qed.

(** Every level but the last of [channel_mult] doubles [ds]. *)
Lemma down_levels_ds (zs : list (Q * nat)) : forall start b,
  length (channel_mult hp) = (start + length zs)%nat ->
  zs <> [] ->
  ds (fold_left (down_level hp) (combine (seq start (length zs)) zs) b)
  = ds b * 2 ^ (Z.of_nat (length zs) - 1).
Proof.
  induction zs as [|[mult n] zs IH]; intros start b Hk Hne; [congruence|].
  simpl in Hk. destruct zs as [|z' zs].
  - change (fold_left (down_level hp) (combine (seq start (length [(mult, n)])) [(mult, n)]) b)
      with (down_level hp b (start, (mult, n))).
    rewrite down_level_ds.
    replace (Z.of_nat start =? _) with true by (symmetry; apply Z.eqb_eq; simpl in Hk; lia).
    simpl. lia.
  - change (fold_left (down_level hp)
              (combine (seq start (length ((mult, n) :: z' :: zs))) ((mult, n) :: z' :: zs)) b)
      with (fold_left (down_level hp)
              (combine (seq (S start) (length (z' :: zs))) (z' :: zs))
              (down_level hp b (start, (mult, n)))).
    rewrite IH by (simpl in *; first [lia|discriminate]).
    rewrite down_level_ds.
    replace (Z.of_nat start =? _) with false by (symmetry; apply Z.eqb_neq; simpl in Hk; lia).
    simpl negb. cbv iota.
    replace (Z.of_nat (length ((mult, n) :: z' :: zs)) - 1)
      with (Z.succ (Z.of_nat (length (z' :: zs)) - 1)) by (simpl length; lia).
    rewrite Z.pow_succ_r by (simpl length; lia). lia.
Qed.

(** With fewer block counts than multipliers every level doubles it. *)
Lemma down_levels_ds_short (zs : list (Q * nat)) : forall start b,
  (start + length zs < length (channel_mult hp))%nat ->
  ds (fold_left (down_level hp) (combine (seq start (length zs)) zs) b)
  = ds b * 2 ^ Z.of_nat (length zs)
  /\ list_sum (map (pushes hp) (combine (seq start (length zs)) zs))
     = list_sum (map pops (combine (seq start (length zs)) zs)).
Proof.
  induction zs as [|[mult n] zs IH]; intros start b Hk.
  - simpl. split; [lia|reflexivity].
  - simpl in Hk.
    change (fold_left (down_level hp)
              (combine (seq start (length ((mult, n) :: zs))) ((mult, n) :: zs)) b)
      with (fold_left (down_level hp) (combine (seq (S start) (length zs)) zs)
              (down_level hp b (start, (mult, n)))).
    change (combine (seq start (length ((mult, n) :: zs))) ((mult, n) :: zs))
      with ((start, (mult, n)) :: combine (seq (S start) (length zs)) zs).
    destruct (IH (S start) (down_level hp b (start, (mult, n))) ltac:(lia)) as [Hd Hp].
    rewrite Hd, down_level_ds.
    assert (Hf : (Z.of_nat start =? Z.of_nat (length (channel_mult hp)) - 1) = false)
      by (apply Z.eqb_neq; lia).
    rewrite Hf. simpl negb. cbv iota. split.
    + simpl length. rewrite Nat2Z.inj_succ, Z.pow_succ_r by lia. lia.
    + simpl map. simpl list_sum. rewrite Hp. unfold pushes, pops. simpl. rewrite Hf. reflexivity.
Qed.

Lemma up_steps_ds level mult num_blocks : forall (k : nat) b b',
  (k <= num_blocks)%nat ->
  for_loop (up_step hp level mult num_blocks) b (seq (num_blocks - k) (k + 1))
    = Returned b' ->
  ds b' = if (level =? 0)%nat then ds b else ds b / 2.
Proof.
  induction k as [|k IH]; intros b b' Hk E.
  - simpl in E. rewrite Nat.sub_0_r in E.
    destruct (up_step hp level mult num_blocks b num_blocks) as [b1|e] eqn:E1; [|discriminate].
    simpl in E. injection E as <-. unfold up_step in E1.
    destruct (pop (input_block_chans b)) as [[ich rest]|e]; [|discriminate].
    simpl in E1. injection E1 as <-. simpl. rewrite Nat.eqb_refl.
    destruct (level =? 0)%nat; reflexivity.
  - change (S k + 1)%nat with (S (k + 1)) in E. simpl seq in E. simpl for_loop in E.
    destruct (up_step hp level mult num_blocks b (num_blocks - S k)) as [b1|e] eqn:E1;
      [|discriminate].
    simpl in E. replace (S (num_blocks - S k)) with (num_blocks - k)%nat in E by lia.
    apply IH in E; [|lia]. rewrite E. unfold up_step in E1.
    destruct (pop (input_block_chans b)) as [[ich rest]|e]; [|discriminate].
    simpl in E1. injection E1 as <-. simpl.
    replace (num_blocks - S k =? num_blocks)%nat with false
      by (symmetry; apply Nat.eqb_neq; lia).
    rewrite andb_false_r. reflexivity.
Qed.

Lemma up_level_ds b level mult n b' :
  up_level hp b (level, (mult, n)) = Returned b' ->
  ds b' = if (level =? 0)%nat then ds b else ds b / 2.
Proof.
  unfold up_level. intros E. apply (up_steps_ds level mult n n); [lia|].
  rewrite Nat.sub_diag. exact E.
Qed.

(** On the way up every level above level 0 halves [ds] once. *)
Lemma up_levels_ds (zs : list (Q * nat)) : forall start b b' d,
  (1 <= start)%nat ->
  ds b = d * 2 ^ Z.of_nat (length zs) ->
  for_loop (up_level hp) b (rev (combine (seq start (length zs)) zs)) = Returned b' ->
  ds b' = d.
Proof.
  induction zs as [|[mult n] zs IH]; intros start b b' d Hs Hd E.
  - simpl in E. injection E as <-. simpl in Hd. lia.
  - rewrite combine_seq_cons in E. simpl rev in E. rewrite for_loop_app in E.
    destruct (for_loop (up_level hp) b (rev (combine (seq (S start) (length zs)) zs)))
      as [b1|e] eqn:E1; [|discriminate].
    cbn [obind for_loop] in E.
    destruct (up_level hp b1 (start, (mult, n))) as [b2|e] eqn:E2; [|discriminate].
    injection E as <-.
    apply (IH (S start) b b1 (d * 2)) in E1; [|lia|].
    + apply up_level_ds in E2. rewrite E2, E1.
      destruct (Nat.eqb_spec start 0); [lia|]. apply Z.div_mul. lia.
    + rewrite Hd. simpl length. rewrite Nat2Z.inj_succ, Z.pow_succ_r by lia. lia.
Qed.

Lemma up_path_ds (zs : list (Q * nat)) b b' d :
  zs <> [] ->
  ds b = d * 2 ^ (Z.of_nat (length zs) - 1) ->
  for_loop (up_level hp) b (rev (combine (seq 0 (length zs)) zs)) = Returned b' ->
  ds b' = d.
Proof.
  destruct zs as [|[mult n] zs]; [congruence|]. intros _ Hd E.
  rewrite combine_seq_cons in E. simpl rev in E. rewrite for_loop_app in E.
  destruct (for_loop (up_level hp) b (rev (combine (seq 1 (length zs)) zs)))
    as [b1|e] eqn:E1; [|discriminate].
  cbn [obind for_loop] in E.
  destruct (up_level hp b1 (0%nat, (mult, n))) as [b2|e] eqn:E2; [|discriminate].
  injection E as <-.
  apply up_level_ds in E2. simpl in E2. rewrite E2.
  eapply up_levels_ds; [| |exact E1]; [lia|].
  rewrite Hd. simpl length. f_equal. f_equal. lia.
Qed.

(** X13: for level lists of equal length >= 1 the downsample rate [ds]
    is 2^(levels - 1) after the down path and back at 1 after the up
    path. *)
Theorem plan_resolution :
  length (channel_mult hp) = length (num_res_blocks hp) ->
  (1 <= length (channel_mult hp))%nat ->
  ds (down_path hp) = 2 ^ (Z.of_nat (length (channel_mult hp)) - 1)
  /\ exists b, plan_blocks hp = Returned b /\ ds b = 1.
Proof.
  intros Hl Hk.
  assert (Hne : channel_mult hp <> [])
    by (destruct (channel_mult hp); [simpl in Hk; lia|discriminate]).
  destruct (zipped_blocks _ _ Hl) as [_ Hlen].
  assert (Hz : combine (channel_mult hp) (num_res_blocks hp) <> []).
  { intros E. rewrite E in Hlen. simpl in Hlen. lia. }
  assert (Hd : ds (down_path hp) = 2 ^ (Z.of_nat (length (channel_mult hp)) - 1)).
  { unfold down_path, levels, enumerate.
    rewrite down_levels_ds by (rewrite ?Hlen; first [reflexivity|exact Hz]).
    rewrite Hlen. simpl. lia. }
  split; [exact Hd|].
  destruct (plan_blocks_stack hp Hl Hne) as (_ & _ & b & E & _).
  exists b. split; [exact E|].
  unfold plan_blocks, up_path, levels, enumerate in E.
  eapply up_path_ds; [exact Hz| |exact E].
  simpl. fold (levels hp). fold (down_path hp). rewrite Hd, Hlen. lia.
Qed.

(** X14: when [num_res_blocks] is shorter than [channel_mult] (and not
    empty) the constructor does not fail: [zip] drops the surplus
    multipliers, while the test for the last level still counts
    [len(channel_mult)], so the last level that is built downsamples too;
    the up path then leaves one entry in [input_block_chans] and [ds]
    ends at 2. *)
Theorem plan_blocks_truncated :
  (length (num_res_blocks hp) < length (channel_mult hp))%nat ->
  num_res_blocks hp <> [] ->
  exists b,
    plan_blocks hp = Returned b
    /\ length (input_block_chans b) = 1%nat
    /\ length (levels hp) = length (num_res_blocks hp)
    /\ ds b = 2.
Proof.
  intros Hlt Hne.
  assert (Hlen : length (combine (channel_mult hp) (num_res_blocks hp))
                 = length (num_res_blocks hp)).
  { rewrite length_combine. lia. }
  assert (Hz : combine (channel_mult hp) (num_res_blocks hp) <> []).
  { intros E. rewrite E in Hlen. destruct (num_res_blocks hp); [congruence|discriminate]. }
  destruct (down_levels_ds_short (combine (channel_mult hp) (num_res_blocks hp)) 0%nat
              (init_builder hp) ltac:(lia)) as [Hd Hp].
  fold (enumerate (combine (channel_mult hp) (num_res_blocks hp))) in Hd, Hp.
  fold (levels hp) in Hd, Hp. fold (down_path hp) in Hd.
  assert (Hdown : length (input_block_chans (down_path hp))
                  = (1 + list_sum (map pops (levels hp)))%nat).
  { unfold down_path. rewrite down_levels_chans, Hp. reflexivity. }
  destruct (up_levels_chans hp (rev (levels hp)) (after_middle (down_path hp)))
    as (b & E & L & _).
  { simpl. rewrite map_rev, list_sum_rev. lia. }
  simpl in L. rewrite map_rev, list_sum_rev in L.
  exists b. split; [exact E|]. split; [lia|]. split.
  { unfold levels, enumerate. rewrite length_combine, length_seq. lia. }
  unfold levels, enumerate in E.
  eapply (up_path_ds _ _ _ 2); [exact Hz| |exact E].
  simpl ds. fold (levels hp). fold (down_path hp). rewrite Hd. simpl ds.
  replace (Z.of_nat (length (combine (channel_mult hp) (num_res_blocks hp))))
    with (Z.succ (Z.of_nat (length (combine (channel_mult hp) (num_res_blocks hp))) - 1))
    at 1 by lia.
  rewrite Z.pow_succ_r; [lia|].
  destruct (combine (channel_mult hp) (num_res_blocks hp)); [congruence|simpl; lia].
Qed.

(** X15: with an empty [channel_mult] or [num_res_blocks] neither loop
    runs, and the constructor fails with [NameError] at the first use of
    [num_blocks] after the loops. *)
Theorem assemble_empty :
  channel_mult hp = [] \/ num_res_blocks hp = [] ->
  assemble hp = Raised NameError.
Proof.
  intros H.
  assert (E : combine (channel_mult hp) (num_res_blocks hp) = []).
  { destruct H as [H|H]; rewrite H; [reflexivity|].
    destruct (channel_mult hp); reflexivity. }
  unfold assemble, up_path, leftover_num_blocks, levels, enumerate. rewrite E. reflexivity.
Qed.


(** *** Where the conditioning blocks go *)

Lemma res_steps_refs mult n b :
  spectrogram_blocks (Nat.iter n (res_step hp mult) b) = spectrogram_blocks b.
Proof. induction n as [|n IH]; [reflexivity|exact IH]. Qed.

Lemma down_level_refs b level mult n :
  length (spectrogram_blocks (down_level hp b (level, (mult, n))))
  = (length (spectrogram_blocks b)
     + if contains (ds b) (spectrogram_conditioning_resolutions hp) then 1 else 0)%nat.
Proof.
  unfold down_level, downsample_step.
  assert (H : length (spectrogram_blocks (spec_cond_step hp b))
              = (length (spectrogram_blocks b)
                 + if contains (ds b) (spectrogram_conditioning_resolutions hp)
                   then 1 else 0)%nat).
  { unfold spec_cond_step. destruct (contains _ _); simpl; [rewrite length_app; simpl|]; lia. }
  destruct (negb _); simpl; rewrite res_steps_refs; exact H.
Qed.

Lemma down_levels_refs (zs : list (Q * nat)) : forall start b,
  length (channel_mult hp) = (start + length zs)%nat ->
  ds b = 2 ^ Z.of_nat start ->
  length (spectrogram_blocks
            (fold_left (down_level hp) (combine (seq start (length zs)) zs) b))
  = (length (spectrogram_blocks b)
     + length (List.filter
                 (fun level => contains (2 ^ Z.of_nat level)
                                        (spectrogram_conditioning_resolutions hp))
                 (seq start (length zs))))%nat.
Proof.
  induction zs as [|[mult n] zs IH]; intros start b Hk Hd; [simpl; lia|].
  rewrite combine_seq_cons. simpl in Hk.
  destruct zs as [|z' zs].
  - cbn [fold_left combine seq length List.filter].
    rewrite down_level_refs, Hd.
    destruct (contains _ _); simpl; lia.
  - cbn [fold_left]. rewrite IH.
    + rewrite down_level_refs, Hd.
      change (seq start (length ((mult, n) :: z' :: zs)))
        with (start :: seq (S start) (length (z' :: zs))).
      cbn [List.filter].
      destruct (contains (2 ^ Z.of_nat start) _); cbn [length]; lia.
    + simpl in *. lia.
    + rewrite down_level_ds, Hd.
      replace (Z.of_nat start =? _) with false
        by (symmetry; apply Z.eqb_neq; simpl in Hk; lia).
      simpl negb. cbv iota. rewrite Nat2Z.inj_succ, Z.pow_succ_r by lia. lia.
Qed.

(** X16: for level lists of equal length, [spectrogram_blocks] holds one
    position per level whose downsample rate 2^level is in
    [spectrogram_conditioning_resolutions], without repeats, and the
    positions are exactly those of the conditioning blocks in
    [input_blocks]. *)
Theorem conditioning_levels (n : network) :
  length (channel_mult hp) = length (num_res_blocks hp) ->
  assemble hp = Returned n ->
  length (net_spectrogram_blocks n)
  = length (List.filter
              (fun level => contains (2 ^ Z.of_nat level)
                                     (spectrogram_conditioning_resolutions hp))
              (seq 0 (length (channel_mult hp))))
  /\ List.NoDup (net_spectrogram_blocks n)
  /\ forall i, In i (net_spectrogram_blocks n)
               <-> exists m, net_input_blocks n !! i = Some m
                             /\ is_spectrogram_block m = true.
Proof.
  intros Hl En.
  pose proof (assemble_refs hp n En) as Hrefs.
  split; [|split].
  - unfold assemble in En.
    destruct (up_path hp (after_middle (down_path hp))) as [up|e] eqn:Eup; [|discriminate].
    simpl in En. destruct (leftover_num_blocks hp) as [k|e]; [|discriminate].
    simpl in En. injection En as <-. simpl.
    apply up_levels_keep in Eup as [_ S]. simpl in S. rewrite S.
    destruct (zipped_blocks _ _ Hl) as [_ Hlen].
    unfold down_path, levels, enumerate.
    rewrite down_levels_refs by (rewrite ?Hlen; reflexivity).
    rewrite Hlen. reflexivity.
  - rewrite Hrefs. apply NoDup_spec_positions.
  - intros i. rewrite Hrefs. apply in_spec_positions.
Qed.

End Flow.

Lemma unet_channels_agree_witness :
  exists n,
    assemble (Fixture.script_hparams false) = Returned n
    /\ unet_channels n (in_channels (Fixture.script_hparams false))
       = Some (level_channels (Fixture.script_hparams false) 1, []).
Proof.
  apply (unet_channels_agree (Fixture.script_hparams false) 1
           [3 # 2; 2; 3; 4; 6; 8; 12; 16; 24; 32; 48]%Q); reflexivity.
Defined.

Lemma plan_resolution_witness :
  ds (down_path (Fixture.script_hparams false))
    = 2 ^ (Z.of_nat (length (channel_mult (Fixture.script_hparams false))) - 1)
  /\ exists b, plan_blocks (Fixture.script_hparams false) = Returned b /\ ds b = 1.
Proof.
  apply (plan_resolution (Fixture.script_hparams false)); [reflexivity | simpl; lia].
Defined.

Lemma plan_blocks_truncated_witness :
  exists b,
    plan_blocks (Fixture.short_hparams) = Returned b
    /\ length (input_block_chans b) = 1%nat
    /\ length (levels Fixture.short_hparams) = length (num_res_blocks Fixture.short_hparams)
    /\ ds b = 2.
Proof.
  apply (plan_blocks_truncated Fixture.short_hparams); [simpl; lia | discriminate].
Defined.

Lemma assemble_empty_witness :
  assemble (mkHparams 32 1 2 512 [] [1%nat] [512] [512] 1 (-1) false true 8 false)
  = Raised NameError.
Proof.
  apply (assemble_empty (mkHparams 32 1 2 512 [] [1%nat] [512] [512] 1 (-1) false true 8 false)).
  left. reflexivity.
Defined.

Lemma conditioning_levels_witness :
  length (net_spectrogram_blocks Fixture.script_network)
  = length (List.filter
              (fun level => contains (2 ^ Z.of_nat level)
                 (spectrogram_conditioning_resolutions (Fixture.script_hparams true)))
              (seq 0 (length (channel_mult (Fixture.script_hparams true)))))
  /\ List.NoDup (net_spectrogram_blocks Fixture.script_network)
  /\ forall i, In i (net_spectrogram_blocks Fixture.script_network)
               <-> exists m, net_input_blocks Fixture.script_network !! i = Some m
                             /\ is_spectrogram_block m = true.
Proof.
  apply (conditioning_levels (Fixture.script_hparams true) Fixture.script_network);
    [reflexivity | vm_compute; reflexivity].
Defined.

Section Windows.
Context {tensor : Type}.
Variable last_dim : tensor -> nat.

(** X17: for an input whose length is a multiple of 4096 both ends of the
    window chosen by [forward] are even, so the window
    [rand_start//2 : rand_stop//2] cut from the unet output is exactly
    half of [rand_start : rand_stop], and it ends within the unet
    output's length. *)
Theorem truncation_windows (training : bool) (x : tensor) (entropy : Z) :
  Z.of_nat (last_dim x) mod 4096 = 0 ->
  exists rand_start rand_stop lo hi,
    truncation_bounds last_dim training x entropy = (rand_start, rand_stop)
    /\ unet_window (rand_start, rand_stop) = (lo, hi)
    /\ 0 <= rand_start <= rand_stop /\ rand_stop <= Z.of_nat (last_dim x)
    /\ 2 * lo = rand_start /\ 2 * hi = rand_stop
    /\ hi <= Z.of_nat (last_dim x) / 2.
Proof.
  intros Hm. set (n := Z.of_nat (last_dim x)) in *.
  assert (Hhalf : 2 * (n / 2) = n).
  { assert (Hq : n = 4096 * (n / 4096)) by (apply Z.div_exact; lia).
    rewrite Hq at 1 2.
    replace (4096 * (n / 4096)) with (2048 * (n / 4096) * 2) by lia.
    rewrite Z.div_mul by lia. lia. }
  assert (Hquarter : 2 * (n / 2 / 2) = n / 2).
  { assert (Hq : n = 4096 * (n / 4096)) by (apply Z.div_exact; lia).
    rewrite Hq at 1 2.
    replace (4096 * (n / 4096)) with (2048 * (n / 4096) * 2) by lia.
    rewrite Z.div_mul by lia.
    replace (2048 * (n / 4096)) with (1024 * (n / 4096) * 2) by lia.
    rewrite Z.div_mul by lia. lia. }
  assert (Hn : 0 <= n / 2) by (apply Z.div_pos; lia).
  unfold truncation_bounds, unet_window. fold n. destruct training; cbn [fst snd].
  - pose proof (VocoderProofs.randint_range 0 (n / 2) entropy Hn) as Hr.
    set (r := randint 0 (n / 2) entropy) in *.
    pose proof (Z.mul_div_le r 2 ltac:(lia)) as Hle.
    assert (Hpos : 0 <= r / 2) by (apply Z.div_pos; lia).
    eexists _, _, _, _. split; [reflexivity|]. split; [reflexivity|].
    rewrite Z.div_mul by lia.
    assert (Hstop : (r / 2 * 2 + n / 2) / 2 = r / 2 + n / 2 / 2).
    { replace (r / 2 * 2 + n / 2) with (n / 2 + r / 2 * 2) by lia.
      rewrite Z.div_add by lia. lia. }
    rewrite Hstop. repeat split; lia.
  - eexists _, _, _, _. split; [reflexivity|]. split; [reflexivity|].
    simpl. repeat split; lia.
Qed.

End Windows.

Lemma truncation_windows_witness :
  exists rand_start rand_stop lo hi,
    truncation_bounds Fixture.length_of true 40960 12345 = (rand_start, rand_stop)
    /\ unet_window (rand_start, rand_stop) = (lo, hi)
    /\ 0 <= rand_start <= rand_stop /\ rand_stop <= Z.of_nat (Fixture.length_of 40960)
    /\ 2 * lo = rand_start /\ 2 * hi = rand_stop
    /\ hi <= Z.of_nat (Fixture.length_of 40960) / 2.
Proof.
  apply (truncation_windows Fixture.length_of true 40960 12345). vm_compute. reflexivity.
Defined.

End VocoderMore.

(** ** Data loaders and datasets *)

Module DataInitProofs.
Import DataInit.

Section LoaderProofs.
Context {dataset_t sampler_t collate_t : Type}.

Local Abbreviation loader :=
  (@create_dataloader dataset_t sampler_t collate_t).

(** X18: in the train phase with a non-zero world size: without [dist]
    the configured batch size goes to the loader unchanged; with [dist]
    a batch size divisible by [world_size] gives a loader with
    batch_size // world_size per process, which times [world_size] is the
    configured size, and any other batch size fails the assertion.  The
    loader takes [shuffle], [sampler] and [collate_fn] from the
    arguments and drops the last batch. *)
Theorem train_loader_batch_size (dataset : dataset_t) (dataset_opt : gmap string pyval)
    (dist : bool) (world_size bs : Z) (workers : pyval)
    (sampler : option sampler_t) (collate_fn : option collate_t) (shuffle : bool) :
  dataset_opt !! "phase"%string = Some (PyStr "train") ->
  dataset_opt !! "n_workers"%string = Some workers ->
  dataset_opt !! "batch_size"%string = Some (PyInt bs) ->
  world_size <> 0 ->
  (dist = false ->
   loader dataset dataset_opt dist world_size sampler collate_fn shuffle
   = Ok (mkDataLoader dataset (PyInt bs) shuffle workers sampler true true collate_fn))
  /\ (dist = true -> bs mod world_size = 0 ->
      loader dataset dataset_opt dist world_size sampler collate_fn shuffle
      = Ok (mkDataLoader dataset (PyInt (bs / world_size)) shuffle workers sampler
                         true true collate_fn)
      /\ bs / world_size * world_size = bs)
  /\ (dist = true -> bs mod world_size <> 0 ->
      loader dataset dataset_opt dist world_size sampler collate_fn shuffle
      = Err AssertionError).
Proof.
  intros Hp Hw Hb Hws. unfold create_dataloader, item.
  rewrite Hp. simpl. rewrite Hw, Hb. simpl. unfold modulo, floordiv. simpl.
  destruct (Z.eqb_spec world_size 0) as [|_]; [congruence|].
  split; [|split].
  - intros ->. reflexivity.
  - intros -> Hm. rewrite Hm. simpl. split; [reflexivity|].
    pose proof (Z.div_mod bs world_size Hws). lia.
  - intros -> Hm. apply Z.eqb_neq in Hm. simpl. rewrite Hm. reflexivity.
Qed.

(** X19: outside the train phase the loader never shuffles, uses no
    workers and no sampler and keeps the last batch, whatever [shuffle],
    [sampler], [dist] and the world size are; its batch size is the
    configured one, or 1 when that is falsy (0, [None], [False], the
    empty string), so it is never falsy. *)
Theorem eval_loader_fixed (dataset : dataset_t) (dataset_opt : gmap string pyval)
    (dist : bool) (world_size : Z) (phase configured : pyval)
    (sampler : option sampler_t) (collate_fn : option collate_t) (shuffle : bool) :
  dataset_opt !! "phase"%string = Some phase ->
  is_str phase "train" = false ->
  dataset_opt !! "batch_size"%string = Some configured ->
  exists dl,
    loader dataset dataset_opt dist world_size sampler collate_fn shuffle = Ok dl
    /\ dl_shuffle dl = false
    /\ dl_num_workers dl = PyInt 0
    /\ dl_sampler dl = None
    /\ dl_drop_last dl = false
    /\ dl_collate_fn dl = collate_fn
    /\ truthy (dl_batch_size dl) = true
    /\ dl_batch_size dl = (if truthy configured then configured else PyInt 1).
Proof.
  intros Hp Hs Hb. unfold create_dataloader, item. rewrite Hp. simpl. rewrite Hs, Hb. simpl.
  eexists. split; [reflexivity|]. simpl. repeat split.
  destruct (truthy configured) eqn:E; [exact E|reflexivity].
Qed.

(** X20: [create_dataloader] raises [KeyError] for the first key it
    reads and does not find: ['phase'], then ['n_workers'] (train phase
    only), then ['batch_size']. *)
Theorem loader_missing_keys (dataset : dataset_t) (dataset_opt : gmap string pyval)
    (dist : bool) (world_size : Z)
    (sampler : option sampler_t) (collate_fn : option collate_t) (shuffle : bool) :
  (dataset_opt !! "phase"%string = None ->
   loader dataset dataset_opt dist world_size sampler collate_fn shuffle
   = Err (KeyError "phase"))
  /\ (dataset_opt !! "phase"%string = Some (PyStr "train") ->
      dataset_opt !! "n_workers"%string = None ->
      loader dataset dataset_opt dist world_size sampler collate_fn shuffle
      = Err (KeyError "n_workers"))
  /\ (forall phase,
        dataset_opt !! "phase"%string = Some phase ->
        (is_str phase "train" = true -> is_Some (dataset_opt !! "n_workers"%string)) ->
        dataset_opt !! "batch_size"%string = None ->
        loader dataset dataset_opt dist world_size sampler collate_fn shuffle
        = Err (KeyError "batch_size")).
Proof.
  unfold create_dataloader, item. split; [|split].
  - intros ->. reflexivity.
  - intros -> ->. simpl. destruct dist; reflexivity.
  - intros phase -> Hw ->. simpl. destruct (is_str phase "train"); [|reflexivity].
    destruct (Hw eq_refl) as [w ->]. simpl. destruct dist; reflexivity.
Qed.

End LoaderProofs.

Lemma train_loader_batch_size_witness :
  (true = false ->
   create_dataloader tt train_opt true 4 (@None unit) (@None unit) true
   = Ok (mkDataLoader tt (PyInt 32) true (PyInt 4) None true true None))
  /\ (true = true -> 32 mod 4 = 0 ->
      create_dataloader tt train_opt true 4 (@None unit) (@None unit) true
      = Ok (mkDataLoader tt (PyInt (32 / 4)) true (PyInt 4) None true true None)
      /\ 32 / 4 * 4 = 32)
  /\ (true = true -> 32 mod 4 <> 0 ->
      create_dataloader tt train_opt true 4 (@None unit) (@None unit) true
      = Err AssertionError).
Proof.
  apply (train_loader_batch_size tt train_opt true 4 32 (PyInt 4) None None true);
    solve [reflexivity | lia].
Defined.

Lemma eval_loader_fixed_witness :
  exists dl,
    create_dataloader tt val_opt true 4 (Some tt) (@None unit) true = Ok dl
    /\ dl_shuffle dl = false
    /\ dl_num_workers dl = PyInt 0
    /\ dl_sampler dl = None
    /\ dl_drop_last dl = false
    /\ dl_collate_fn dl = None
    /\ truthy (dl_batch_size dl) = true
    /\ dl_batch_size dl = (if truthy (PyInt 0) then PyInt 0 else PyInt 1).
Proof.
  apply (eval_loader_fixed tt val_opt true 4 (PyStr "val") (PyInt 0) (Some tt) None true);
    reflexivity.
Defined.

Section CreateProofs.
Variable create_hparams : gmap string pyval.
Variable opt_get : gmap string pyval -> list string -> pyval -> pyval.

Local Abbreviation create := (create_dataset create_hparams opt_get).
Local Abbreviation merged := (with_defaults create_hparams).

Ltac split_modes H :=
  repeat match type of H with
         | context [String.eqb ?s ?l] =>
             destruct (String.eqb_spec s l); [subst; simpl in H|]
         end.

(** What [select] can give for a string mode. *)
Lemma select_cases (s : string) (dataset_opt : gmap string pyval) D o c :
  select create_hparams opt_get (PyStr s) dataset_opt = Ok (D, o, c) ->
  s ∈ known_modes
  /\ (o = dataset_opt \/ (o = merged dataset_opt
                          /\ (s = "nv_tacotron" \/ s = "stop_prediction")%string))
  /\ (forall x, c = Some x ->
        (s = "nv_tacotron"%string /\ D = TextMelLoader
         /\ exists n, x = TextMelCollate n
                      /\ merged dataset_opt !! "n_frames_per_step"%string = Some n)
        \/ (s = "gpt_tts"%string /\ D = GptTtsDataset /\ x = GptTtsCollater dataset_opt)).
Proof.
  unfold select, is_str. intros H.
  split_modes H.
  all: try (injection H as <- <- <-;
            split; [unfold known_modes; set_solver|];
            split; [auto|]; intros x Hx; try discriminate;
            injection Hx as <-; auto).
  - destruct (truthy _).
    + unfold attribute in H.
      destruct (merged dataset_opt !! "n_frames_per_step"%string) as [frames|] eqn:En;
        [|discriminate].
      simpl in H. injection H as <- <- <-.
      split; [unfold known_modes; set_solver|]. split; [auto|].
      intros x Hx. injection Hx as <-. left. eauto.
    + injection H as <- <- <-.
      split; [unfold known_modes; set_solver|]. split; [auto|]. intros x Hx. discriminate.
  - discriminate.
Qed.

Lemma select_unknown (s : string) (dataset_opt : gmap string pyval) :
  s ∉ known_modes ->
  select create_hparams opt_get (PyStr s) dataset_opt = Err (NotImplementedError s).
Proof.
  intros Hn. unfold select, is_str.
  repeat match goal with
         | |- context [String.eqb ?s ?l] =>
             destruct (String.eqb_spec s l);
             [exfalso; apply Hn; subst; unfold known_modes; set_solver|]
         end.
  reflexivity.
Qed.

(** X21: [create_dataset] raises [KeyError] when ['mode'] is missing,
    and for a string mode it raises [NotImplementedError] naming the mode
    exactly when the mode is none of the nineteen names of the chain. *)
Theorem create_dataset_errors (dataset_opt : gmap string pyval) (return_collate : bool) :
  (dataset_opt !! "mode"%string = None ->
   create dataset_opt return_collate = Err (KeyError "mode"))
  /\ (forall s, dataset_opt !! "mode"%string = Some (PyStr s) ->
        (create dataset_opt return_collate = Err (NotImplementedError s)
         <-> s ∉ known_modes)).
Proof.
  unfold create_dataset, item. split.
  - intros ->. reflexivity.
  - intros s ->. simpl. split.
    + intros H Hin.
      destruct (select create_hparams opt_get (PyStr s) dataset_opt) as [[[D o] c]|e] eqn:E.
      * simpl in H. destruct return_collate; discriminate.
      * simpl in H. injection H as ->.
        unfold select, is_str in E.
        unfold known_modes in Hin.
        repeat (apply elem_of_cons in Hin as [->|Hin];
                [simpl in E; try discriminate|]).
        -- destruct (truthy _); [|discriminate].
           unfold attribute in E. destruct (_ !! _); discriminate.
        -- inversion Hin.
    + intros Hn. rewrite select_unknown by exact Hn. reflexivity.
Qed.

(** X22: [create_dataset(dataset_opt, return_collate=True)] returns a
    collate object other than [None] only for mode ['nv_tacotron'], with
    a truthy [needs_collate] and built from [n_frames_per_step] of the
    merged options, and for mode ['gpt_tts'], built from the options as
    given. *)
Theorem collate_only_for_audio (dataset_opt : gmap string pyval) d c :
  create dataset_opt true = Ok (DatasetAndCollate d (Some c)) ->
  (dataset_opt !! "mode"%string = Some (PyStr "nv_tacotron")
   /\ ds_class d = TextMelLoader
   /\ truthy (opt_get (merged dataset_opt) ["needs_collate"%string] (PyBool true)) = true
   /\ exists n, c = TextMelCollate n
                /\ merged dataset_opt !! "n_frames_per_step"%string = Some n)
  \/ (dataset_opt !! "mode"%string = Some (PyStr "gpt_tts")
      /\ ds_class d = GptTtsDataset
      /\ c = GptTtsCollater dataset_opt).
Proof.
  unfold create_dataset, item. intros H.
  destruct (dataset_opt !! "mode"%string) as [mode|]; [|discriminate].
  simpl in H.
  destruct (select create_hparams opt_get mode dataset_opt) as [[[D o] c']|e] eqn:E;
    [|discriminate].
  simpl in H. injection H as <- ->.
  destruct mode as [| |z|s].
  1-3: unfold select in E; simpl in E; discriminate.
  pose proof (select_cases s dataset_opt D o (Some c) E) as (_ & _ & Hc).
  destruct (Hc c eq_refl) as [(-> & -> & n & -> & Hn)|(-> & -> & ->)].
  - left. split; [reflexivity|]. split; [reflexivity|]. split; [|eauto].
    unfold select in E. simpl in E.
    destruct (truthy _); [reflexivity|discriminate].
  - right. auto.
Qed.

(** X23: every option given to [create_dataset] reaches the dataset
    class with its value; keys that were not given are added only for the
    modes ['nv_tacotron'] and ['stop_prediction'], with the values of
    [create_hparams()]. *)
Theorem dataset_options (dataset_opt : gmap string pyval) (return_collate : bool) r :
  create dataset_opt return_collate = Ok r ->
  (forall k v, dataset_opt !! k = Some v -> ds_opt (dataset_of r) !! k = Some v)
  /\ (forall k, dataset_opt !! k = None ->
        ds_opt (dataset_of r) !! k = None
        \/ ((dataset_opt !! "mode"%string = Some (PyStr "nv_tacotron")
             \/ dataset_opt !! "mode"%string = Some (PyStr "stop_prediction"))
            /\ ds_opt (dataset_of r) !! k = create_hparams !! k)).
Proof.
  unfold create_dataset, item. intros H.
  destruct (dataset_opt !! "mode"%string) as [mode|] eqn:Em; [|discriminate].
  simpl in H.
  destruct (select create_hparams opt_get mode dataset_opt) as [[[D o] c']|e] eqn:E;
    [|discriminate].
  simpl in H.
  assert (Hr : ds_opt (dataset_of r) = o).
  { destruct return_collate; injection H as <-; reflexivity. }
  rewrite Hr. clear H Hr.
  destruct mode as [| |z|s].
  1-3: unfold select in E; simpl in E; discriminate.
  pose proof (select_cases s dataset_opt D o c' E) as (_ & [->|[-> Hs]] & _).
  - split; [auto|]. intros k Hk. left. exact Hk.
  - split.
    + intros k v Hk. unfold with_defaults. apply lookup_union_Some_l. exact Hk.
    + intros k Hk. right. split.
      * destruct Hs as [->| ->]; auto.
      * unfold with_defaults. rewrite lookup_union_r by exact Hk. reflexivity.
Qed.

(** X24: [return_collate] changes the shape of the result only: the
    call with [True] returns a pair exactly when the call with [False]
    returns the pair's dataset, both raise the same errors, and neither
    returns the other's shape. *)
Theorem return_collate_shape (dataset_opt : gmap string pyval) :
  (forall d, (exists c, create dataset_opt true = Ok (DatasetAndCollate d c))
             <-> create dataset_opt false = Ok (Dataset d))
  /\ (forall e, create dataset_opt true = Err e <-> create dataset_opt false = Err e)
  /\ (forall d, create dataset_opt true <> Ok (Dataset d))
  /\ (forall d c, create dataset_opt false <> Ok (DatasetAndCollate d c)).
Proof.
  unfold create_dataset.
  destruct (item dataset_opt "mode") as [mode|e0]; simpl.
  - destruct (select create_hparams opt_get mode dataset_opt) as [[[D o] c']|e1]; simpl.
    + repeat split; try discriminate.
      * intros [c H]. injection H as <-. reflexivity.
      * intros H. injection H as <-. eauto.
    + repeat split; try discriminate; (intros [c H] || intros H); try discriminate; exact H.
  - repeat split; try discriminate; (intros [c H] || intros H); try discriminate; exact H.
Qed.

End CreateProofs.

Lemma collate_only_for_audio_witness :
  (tacotron_opt !! "mode"%string = Some (PyStr "nv_tacotron")
   /\ ds_class (mkDataset TextMelLoader (with_defaults tacotron_defaults tacotron_opt))
      = TextMelLoader
   /\ truthy (lookup_or (with_defaults tacotron_defaults tacotron_opt)
                        ["needs_collate"%string] (PyBool true)) = true
   /\ exists n, TextMelCollate (PyInt 1) = TextMelCollate n
                /\ with_defaults tacotron_defaults tacotron_opt
                   !! "n_frames_per_step"%string = Some n)
  \/ (tacotron_opt !! "mode"%string = Some (PyStr "gpt_tts")
      /\ ds_class (mkDataset TextMelLoader (with_defaults tacotron_defaults tacotron_opt))
         = GptTtsDataset
      /\ TextMelCollate (PyInt 1) = GptTtsCollater tacotron_opt).
Proof.
  apply (collate_only_for_audio tacotron_defaults lookup_or tacotron_opt
           (mkDataset TextMelLoader (with_defaults tacotron_defaults tacotron_opt))
           (TextMelCollate (PyInt 1))).
  vm_compute. reflexivity.
Defined.

Lemma dataset_options_witness :
  (forall k v, tacotron_opt !! k = Some v ->
     ds_opt (dataset_of (Dataset (mkDataset TextMelLoader
                                    (with_defaults tacotron_defaults tacotron_opt)))) !! k
     = Some v)
  /\ (forall k, tacotron_opt !! k = None ->
        ds_opt (dataset_of (Dataset (mkDataset TextMelLoader
                                       (with_defaults tacotron_defaults tacotron_opt)))) !! k
        = None
        \/ ((tacotron_opt !! "mode"%string = Some (PyStr "nv_tacotron")
             \/ tacotron_opt !! "mode"%string = Some (PyStr "stop_prediction"))
            /\ ds_opt (dataset_of (Dataset (mkDataset TextMelLoader
                                  (with_defaults tacotron_defaults tacotron_opt)))) !! k
               = tacotron_defaults !! k)).
Proof.
  apply (dataset_options tacotron_defaults lookup_or tacotron_opt false
           (Dataset (mkDataset TextMelLoader (with_defaults tacotron_defaults tacotron_opt)))).
  vm_compute. reflexivity.
Defined.

End DataInitProofs.
